(** * The Google Chat sidecar: adaptive poller and message store

    A shallow embedding of [src/sidecar/src]: the SQLite wrapper of
    [db.py], the fetcher of [chat_api.py] and [auth.py], [poll_fn] of
    [main.py] and the polling loop of [poller.py], followed by the
    properties of the polling state machine and of the store.

    Conventions.
    - A table with a TEXT primary key is the list of its rows in rowid
      (insertion) order; the two key-value tables are finite maps.
    - TEXT values are byte strings; SQLite's default BINARY collation is
      the lexicographic order on bytes, [String.leb] and [String.ltb].
    - A [time.monotonic()] reading is the rational its float denotes;
      the difference of two readings is rounded as the subtraction of
      two binary64 floats rounds it, [b64_sub].  Every reading of a
      clock is an input of the operation that reads it.
    - Python exceptions are values of [exn]; code that can raise runs in
      the monad [Py], which threads the database handle.
    - A call of [Poller.touch] and the code of [Poller._loop] between
      two [await]s are atomic; the writes of [poll_fn], which runs in a
      worker thread, take place when it returns. *)

From Stdlib Require Import ZArith QArith Qpower Qabs Qround Lqa.
From Stdlib Require Import String Ascii OrderedTypeEx.
From stdpp Require Import gmap strings list sorting.

Open Scope string_scope.

(** ** Python values *)

(** Truth value of a [str]: the empty string is falsy. *)
Definition truthy (s : string) : bool := negb (String.eqb s EmptyString).

(** Truth value of a [str | None]. *)
Definition truthy_opt (o : option string) : bool :=
  match o with
  | Some s => truthy s
  | None => false
  end.

(** The one-character string holding a double quote. *)
Definition dquote : string := String "034"%char EmptyString.

(** [x or y] for [x : str | None] and [y : str]. *)
Definition py_or (x : option string) (y : string) : string :=
  match x with
  | Some s => if truthy s then s else y
  | None => y
  end.

(** The exception classes the sidecar meets.  [OtherException] stands
    for any other subclass of [Exception] (an HTTP error of the client
    library, a failed token refresh, a socket error); [CancelledError]
    derives from [BaseException] only. *)
Inductive exn : Type :=
  | RuntimeError
  | ValueError
  | OtherException (name : string)
  | CancelledError.

(** [isinstance(e, Exception)] *)
Definition isinstance_Exception (e : exn) : bool :=
  match e with
  | CancelledError => false
  | _ => true
  end.

(** [isinstance(e, RuntimeError)] *)
Definition isinstance_RuntimeError (e : exn) : bool :=
  match e with
  | RuntimeError => true
  | _ => false
  end.

(** ** db.py *)

(** A normalised message, the [dict] handed to [upsert_messages].  The
    key [sender_email] may be missing and then defaults to the empty
    string. *)
Record Message : Type := {
  msg_id : string;
  msg_sender_name : string;
  msg_sender_email : option string;
  msg_text : string;
  msg_created_at : string
}.

(** A row of the table [messages]; [row_id] is the column [id]. *)
Record Row : Type := {
  row_id : string;
  sender_name : string;
  sender_email : string;
  text : string;
  created_at : string;
  fetched_at : string
}.

(** The connection: the three tables and the counter behind
    [conn.total_changes], the number of rows inserted, modified or
    deleted on this connection since it was opened. *)
Record Database : Type := {
  messages : list Row;
  state : gmap string string;
  auth : gmap string string;
  total_changes : nat
}.

(** [Database()] on a new file: [SCHEMA] creates three empty tables. *)
Definition Database_init : Database :=
  {| messages := []; state := ∅; auth := ∅; total_changes := 0 |}.

Definition has_id (i : string) (rows : list Row) : bool :=
  existsb (fun r => String.eqb (row_id r) i) rows.

(** [INSERT OR IGNORE INTO messages ... VALUES (...)]: a row whose [id]
    is taken is dropped without error; a new row is appended and counts
    as one change. *)
Definition insert_or_ignore (r : Row) (db : Database) : Database :=
  if has_id (row_id r) (messages db) then db
  else {| messages := messages db ++ [r];
          state := state db;
          auth := auth db;
          total_changes := S (total_changes db) |}.

(** The tuple of values bound in [upsert_messages]. *)
Definition row_of (now : string) (msg : Message) : Row :=
  {| row_id := msg_id msg;
     sender_name := msg_sender_name msg;
     sender_email := default EmptyString (msg_sender_email msg);
     text := msg_text msg;
     created_at := msg_created_at msg;
     fetched_at := now |}.

(** The [for msg in messages] loop of [upsert_messages], with the
    accumulator [inserted]: after each statement it adds
    [conn.total_changes]. *)
Fixpoint upsert_loop (now : string) (msgs : list Message)
    (db : Database) (inserted : nat) : Database * nat :=
  match msgs with
  | [] => (db, inserted)
  | msg :: rest =>
      let db' := insert_or_ignore (row_of now msg) db in
      upsert_loop now rest db' (inserted + total_changes db')
  end.

(** [Database.upsert_messages]; [now] is the wall clock read on entry.
    Returns the connection and the value of [inserted]. *)
Definition upsert_messages (now : string) (msgs : list Message)
    (db : Database) : Database * nat :=
  upsert_loop now msgs db 0.

(** [created_at] compared under the BINARY collation. *)
Definition created_le (r1 r2 : Row) : Prop :=
  String.leb (created_at r1) (created_at r2) = true.

#[global] Instance created_le_dec r1 r2 : Decision (created_le r1 r2).
Proof. unfold created_le. apply _. Defined.

(** A row put into rows already in ascending order of [created_at],
    before the first row that is not earlier than it. *)
Fixpoint insert_by_created_at (r : Row) (rows : list Row) : list Row :=
  match rows with
  | [] => [r]
  | r' :: rest =>
      if String.leb (created_at r) (created_at r')
      then r :: rows
      else r' :: insert_by_created_at r rest
  end.

(** [ORDER BY created_at ASC], read off the index on [created_at]: rows
    with the same [created_at] come in rowid order, the order of the
    table. *)
Definition order_by_created_at_asc (rows : list Row) : list Row :=
  foldr insert_by_created_at [] rows.

(** [ORDER BY created_at DESC]: the same index read backwards. *)
Definition order_by_created_at_desc (rows : list Row) : list Row :=
  rev (order_by_created_at_asc rows).

(** [LIMIT ?]: a negative bound means no bound. *)
Definition sql_limit {A : Type} (limit : Z) (rows : list A) : list A :=
  if (limit <? 0)%Z then rows else take (Z.to_nat limit) rows.

(** [Database.get_state] and [Database.set_state]; [INSERT OR REPLACE]
    counts as one change. *)
Definition get_state (key : string) (db : Database) : option string :=
  state db !! key.

Definition set_state (key value : string) (db : Database) : Database :=
  {| messages := messages db;
     state := <[key := value]> (state db);
     auth := auth db;
     total_changes := S (total_changes db) |}.

(** [Database.get_auth] and [Database.set_auth]. *)
Definition get_auth (key : string) (db : Database) : option string :=
  auth db !! key.

Definition set_auth (key value : string) (db : Database) : Database :=
  {| messages := messages db;
     state := state db;
     auth := <[key := value]> (auth db);
     total_changes := S (total_changes db) |}.

Section Queries.

(** SQLite's [value LIKE pattern], a built-in of the engine. *)
Variable sql_like : string -> string -> bool.

(** [Database.get_messages(since=, limit=, sender=)]: a clause enters
    the [WHERE] only when its argument is truthy. *)
Definition get_messages (since : option string) (limit : Z)
    (sender : option string) (db : Database) : list Row :=
  let since_ok (r : Row) :=
    match since with
    | Some s => if truthy s then String.ltb s (created_at r) else true
    | None => true
    end in
  let sender_ok (r : Row) :=
    match sender with
    | Some s =>
        if truthy s then sql_like (sender_name r) ("%" ++ s ++ "%")
        else true
    | None => true
    end in
  sql_limit limit
    (order_by_created_at_asc
       (List.filter (fun r => since_ok r && sender_ok r) (messages db))).

(** [Database.get_unread_messages] *)
Definition get_unread_messages (db : Database) : list Row :=
  let marker := get_state "read_marker" db in
  if truthy_opt marker then get_messages marker 500 None db
  else get_messages None 50 None db.

End Queries.

(** [Database.mark_read(timestamp)]; [now] is the wall clock. Returns
    the connection and the marker written. *)
Definition mark_read (timestamp : option string) (now : string)
    (db : Database) : Database * string :=
  let ts := py_or timestamp now in
  (set_state "read_marker" ts db, ts).

(** [Database.message_count] *)
Definition message_count (db : Database) : nat := length (messages db).

(** [Database.latest_message_time]:
    [SELECT created_at ... ORDER BY created_at DESC LIMIT 1] *)
Definition latest_message_time (db : Database) : option string :=
  match sql_limit 1 (order_by_created_at_desc (messages db)) with
  | row :: _ => Some (created_at row)
  | [] => None
  end.

(** [Database.unread_count] *)
Definition unread_count (db : Database) : nat :=
  let marker := get_state "read_marker" db in
  match marker with
  | Some m =>
      if truthy m
      then length
             (List.filter (fun r => String.ltb m (created_at r)) (messages db))
      else length (messages db)
  | None => length (messages db)
  end.

(** ** Code that can raise: a state and error monad over the connection *)

Definition Py (A : Type) : Type := Database -> (exn + A) * Database.

Definition ret {A : Type} (a : A) : Py A := fun db => (inr a, db).

Definition raise {A : Type} (e : exn) : Py A := fun db => (inl e, db).

Definition bind {A B : Type} (m : Py A) (k : A -> Py B) : Py B :=
  fun db =>
    match m db with
    | (inl e, db') => (inl e, db')
    | (inr a, db') => k a db'
    end.

(** A read-only method of the connection. *)
Definition query {A : Type} (f : Database -> A) : Py A :=
  fun db => (inr (f db), db).

(** A method that only writes. *)
Definition exec (f : Database -> Database) : Py unit :=
  fun db => (inr tt, f db).

(** [try: a = m  except E: h] followed by [k a], where [E] is the class
    recognised by [catches]; the handler sees the connection as the
    failed body left it. *)
Definition try_except {A B : Type} (m : Py A) (catches : exn -> bool)
    (h : Py B) (k : A -> Py B) : Py B :=
  fun db =>
    match m db with
    | (inl e, db') => if catches e then h db' else (inl e, db')
    | (inr a, db') => k a db'
    end.

Declare Scope py_scope.
Delimit Scope py_scope with py.
Notation "x <- m ;; k" := (bind m (fun x => k))
  (at level 100, m at next level, right associativity) : py_scope.
Notation "m ;; k" := (bind m (fun _ => k))
  (at level 100, right associativity) : py_scope.

(** ** chat_api.py and auth.py *)

(** A message as the Chat API returns it; any key may be missing. *)
Record RawSender : Type := {
  displayName : option string;
  email : option string
}.

Record RawMessage : Type := {
  raw_name : option string;
  raw_sender : option RawSender;
  raw_text : option string;
  raw_createTime : option string
}.

(** [_normalize] *)
Definition _normalize (msg : RawMessage) : Message :=
  let sender := default {| displayName := None; email := None |}
                        (raw_sender msg) in
  {| msg_id := default EmptyString (raw_name msg);
     msg_sender_name := default "Unknown" (displayName sender);
     msg_sender_email := Some (default EmptyString (email sender));
     msg_text := default EmptyString (raw_text msg);
     msg_created_at := default EmptyString (raw_createTime msg) |}.

Section Fetcher.

(** [datetime] of the Python library: [datetime.fromisoformat], which
    raises [ValueError] on a string it cannot parse ([None] here), and
    [d.astimezone(timezone.utc).strftime("%Y-%m-%dT%H:%M:%S.%fZ")]. *)
Variable datetime : Type.
Variable fromisoformat : string -> option datetime.
Variable strftime_utc : datetime -> string.

(** What Google answers during one call of [list_messages]:
    - [stale token expiry]: [creds.expired or not creds.valid] for the
      stored access token and expiry;
    - [refresh]: [creds.refresh(Request())] raises, or yields the new
      access token and, when it has one, the new expiry in ISO format;
    - [list_pages filter page_size]: the pages served in turn for
      [spaces().messages().list(...)] until a page carries no
      [nextPageToken], and the exception that ends the listing
      early, if any. *)
Record Google : Type := {
  stale : option string -> option datetime -> bool;
  refresh : exn + (string * option string);
  list_pages : string -> Z -> list (list RawMessage) * option exn
}.

Record Credentials : Type := {
  token : option string;
  refresh_token : string
}.

(** [auth.load_credentials] *)
Definition load_credentials (g : Google) : Py (option Credentials) :=
  (refresh_token <- query (get_auth "refresh_token") ;;
   if negb (truthy_opt refresh_token) then ret None
   else
     access_token <- query (get_auth "access_token") ;;
     expiry_raw <- query (get_auth "token_expiry") ;;
     expiry <- (if truthy_opt expiry_raw
                then match fromisoformat (default EmptyString expiry_raw) with
                     | Some d => ret (Some d)
                     | None => raise ValueError
                     end
                else ret None) ;;
     let creds := {| token := access_token;
                     refresh_token := default EmptyString refresh_token |} in
     if stale g access_token expiry then
       match refresh g with
       | inl e => raise e
       | inr (new_token, new_expiry) =>
           exec (set_auth "access_token" new_token) ;;
           match new_expiry with
           | Some iso => exec (set_auth "token_expiry" iso)
           | None => ret tt
           end ;;
           ret (Some {| token := Some new_token;
                        refresh_token := default EmptyString refresh_token |})
       end
     else ret (Some creds))%py.

(** [chat_api._get_service]; the service object is its credentials. *)
Definition _get_service (g : Google) : Py Credentials :=
  (creds <- load_credentials g ;;
   match creds with
   | None => raise RuntimeError
   | Some c => ret c
   end)%py.

(** The filter of [list_messages]; a [datetime] is always truthy. *)
Definition filter_str (after : option datetime) : string :=
  match after with
  | Some d => "createTime > " ++ dquote ++ strftime_utc d ++ dquote
  | None => EmptyString
  end.

(** [chat_api.list_messages(db, after=, page_size=)] *)
Definition list_messages (g : Google) (after : option datetime)
    (page_size : Z) : Py (list Message) :=
  (svc <- _get_service g ;;
   match list_pages g (filter_str after) (Z.min page_size 1000) with
   | (_, Some e) => raise e
   | (pages, None) => ret (rev (concat (map (map _normalize) pages)))
   end)%py.

(** ** main.py *)

(** The lower bound computed by [main.poll_fn] from the latest stored
    creation time. *)
Definition poll_after (latest : option string) : Py (option datetime) :=
  if truthy_opt latest
  then match fromisoformat (default EmptyString latest) with
       | Some d => ret (Some d)
       | None => raise ValueError
       end
  else ret None.

(** The rest of [main.poll_fn], from its [try] on; [fetch_call] is the
    call [list_messages(db, after=after)] and [now] the wall clock
    [upsert_messages] reads. *)
Definition fetch_and_store (fetch_call : Py (list Message))
    (now : string) : Py nat :=
  try_except fetch_call isinstance_RuntimeError
    (ret 0)
    (fun messages =>
       match messages with
       | [] => ret 0
       | _ => fun db =>
                let (db', inserted) := upsert_messages now messages db in
                (inr inserted, db')
       end).

(** [main.poll_fn].  It calls whatever the module-level name
    [list_messages] is bound to, here the parameter [fetch]. *)
Definition poll_fn (fetch : option datetime -> Py (list Message))
    (now : string) : Py nat :=
  (latest <- query latest_message_time ;;
   after <- poll_after latest ;;
   fetch_and_store (fetch after) now)%py.

(** [poll_fn] as the application runs it. *)
Definition app_poll_fn (g : Google) (now : string) : Py nat :=
  poll_fn (fun after => list_messages g after 100) now.

End Fetcher.

Arguments stale {datetime} g token expiry : rename.
Arguments refresh {datetime} g : rename.
Arguments list_pages {datetime} g filter page_size : rename.
Arguments load_credentials {datetime} fromisoformat g.
Arguments _get_service {datetime} fromisoformat g.
Arguments filter_str {datetime} strftime_utc after.
Arguments list_messages {datetime} fromisoformat strftime_utc g after page_size.
Arguments poll_after {datetime} fromisoformat latest.
Arguments poll_fn {datetime} fromisoformat fetch now.
Arguments app_poll_fn {datetime} fromisoformat strftime_utc g now.

(** ** config.py *)

(** The polling options, read once from the environment, in seconds. *)
Record Config : Type := {
  POLL_ACTIVE_INTERVAL : Z;
  POLL_IDLE_INTERVAL : Z;
  POLL_DECAY_TIMEOUT : Z
}.

(** The options when the environment sets none of them. *)
Definition default_config : Config :=
  {| POLL_ACTIVE_INTERVAL := 30;
     POLL_IDLE_INTERVAL := 14400;
     POLL_DECAY_TIMEOUT := 600 |}.

(** ** poller.py *)

Inductive PollMode : Type := IDLE | ACTIVE.

Definition PollMode_eqb (a b : PollMode) : bool :=
  match a, b with
  | IDLE, IDLE | ACTIVE, ACTIVE => true
  | _, _ => false
  end.

(** [PollMode.value] *)
Definition PollMode_value (m : PollMode) : string :=
  match m with
  | IDLE => "idle"
  | ACTIVE => "active"
  end.

(** [x > y] on clock readings. *)
Definition Qgtb (x y : Q) : bool := negb (Qle_bool x y).

(** *** Python floats

    A [float] is an IEEE 754 binary64 number: a rational [m * 2 ^ e]
    with [|m| < 2 ^ 53] and [-1074 <= e], or an infinity.  (The code
    modelled here makes no NaN and does not tell the zeros apart.) *)

#[local] Open Scope Q_scope.

Inductive float64 : Type :=
  | Finite (q : Q)
  | PosInf
  | NegInf.

(** The integer nearest to [x], the even one of two at equal
    distance. *)
Definition Qround_half_even (x : Q) : Z :=
  let f := Qfloor x in
  match Qcompare (x - inject_Z f) (1 # 2) with
  | Lt => f
  | Gt => (f + 1)%Z
  | Eq => if Z.even f then f else (f + 1)%Z
  end.

(** The exponent of the unit in the last place of the binary64 numbers
    around [x]: [E - 52] for [2 ^ E <= |x| < 2 ^ (E + 1)], and [-1074]
    in the subnormal range. *)
Definition b64_exponent (x : Q) : Z :=
  let k := (Z.log2 (Z.abs (Qnum x)) - Z.log2 (Zpos (Qden x)))%Z in
  let E := if Qle_bool (2 ^ k) (Qabs x) then k else (k - 1)%Z in
  Z.max (E - 52) (-1074).

(** Rounding to nearest, ties to even, with overflow to an infinity:
    the rounding of every arithmetic operation on floats. *)
Definition b64_round (x : Q) : float64 :=
  if Qeq_bool x 0 then Finite 0
  else
    let e := b64_exponent x in
    let r := inject_Z (Qround_half_even (x / 2 ^ e)) * 2 ^ e in
    if Qle_bool (2 ^ 1024) (Qabs r)
    then (if Qle_bool 0 x then PosInf else NegInf)
    else Finite r.

(** [x - y] on two floats. *)
Definition b64_sub (x y : Q) : float64 := b64_round (x - y).

(** [f > z] for a float and an [int]: Python compares the two
    exactly. *)
Definition f64_gt_int (f : float64) (z : Z) : bool :=
  match f with
  | Finite q => Qgtb q (inject_Z z)
  | PosInf => true
  | NegInf => false
  end.

(** The rationals that are floats. *)
Definition is_binary64 (x : Q) : bool :=
  match b64_round x with
  | Finite r => Qeq_bool r x
  | _ => false
  end.

#[local] Close Scope Q_scope.

(** The attributes of a [Poller] that change after construction. *)
Record Poller : Type := {
  _mode : PollMode;
  _last_skill_touch : Q
}.

(** [Poller.__init__] *)
Definition Poller_init : Poller :=
  {| _mode := IDLE; _last_skill_touch := 0 |}.

(** The property [Poller.mode]. *)
Definition mode (p : Poller) : string := PollMode_value (_mode p).

(** [Poller.touch]; [now] is the reading of [time.monotonic()]. *)
Definition touch (now : Q) (p : Poller) : Poller :=
  let p1 := {| _mode := _mode p; _last_skill_touch := now |} in
  if negb (PollMode_eqb (_mode p1) ACTIVE)
  then {| _mode := ACTIVE; _last_skill_touch := _last_skill_touch p1 |}
  else p1.

Section Loop.

Variable config : Config.

(** [Poller._current_interval] *)
Definition _current_interval (p : Poller) : Z :=
  if PollMode_eqb (_mode p) ACTIVE then POLL_ACTIVE_INTERVAL config
  else POLL_IDLE_INTERVAL config.

(** The body of [Poller._loop] up to its first [await]: the interval
    and the decay check.  [now] is the reading of [time.monotonic()]
    the check takes.  Returns the poller and the local [interval]. *)
Definition _loop_decide (now : Q) (p : Poller) : Poller * Z :=
  let interval := _current_interval p in
  if PollMode_eqb (_mode p) ACTIVE && Qgtb (_last_skill_touch p) 0 then
    let elapsed := b64_sub now (_last_skill_touch p) in
    if f64_gt_int elapsed (POLL_DECAY_TIMEOUT config) then
      ({| _mode := IDLE; _last_skill_touch := _last_skill_touch p |},
       POLL_IDLE_INTERVAL config)
    else (p, interval)
  else (p, interval).

(** The [try] statement of [Poller._loop]: run [poll_fn], then record
    [last_poll_at] with the wall clock [now_iso]; [except Exception]
    logs and goes on.  What is not an [Exception] leaves the loop. *)
Definition _loop_poll (poll_fn : Py nat) (now_iso : string) : Py unit :=
  try_except
    (new_count <- poll_fn ;;
     exec (set_state "last_poll_at" now_iso))%py
    isinstance_Exception
    (ret tt)
    (fun _ => ret tt).

(** Where the task running [_loop] stands: about to start an
    iteration, suspended in [await asyncio.to_thread(...)] or in
    [await asyncio.sleep(interval)] with its local [interval], or
    finished because an exception left the loop. *)
Inductive Phase : Type :=
  | AtTop
  | AwaitPoll (interval : Z)
  | AwaitSleep (interval : Z)
  | Finished (e : exn).

(** The application state shared by the loop and the request
    handlers ([app.state.poller], [app.state.db]). *)
Record App : Type := {
  poller : Poller;
  loop : Phase;
  db : Database
}.

(** [lifespan] on a new database file, once the task is created. *)
Definition App_init : App :=
  {| poller := Poller_init; loop := AtTop; db := Database_init |}.

(** What can happen to the application, one atomic piece at a time.
    - [EvTouch now]: a handler calls [poller.touch()].
    - [EvMarkRead timestamp now]: [POST /messages/mark-read].
    - [EvUpsert now msgs]: a handler stores messages
      ([POST /messages/send] after the send).
    - [EvSetAuth key value]: the OAuth callback stores a token.
    - [EvLoopDecide now]: the loop runs from the top of an iteration
      to its first [await].
    - [EvLoopPoll poll_fn now_iso]: the thread running [poll_fn]
      returns or raises, and the loop runs on to [asyncio.sleep].
    - [EvLoopWake]: the sleep is over.
    - [EvCancel]: [Poller.stop] cancels the task at an [await]; a
      worker thread left behind is not followed. *)
Inductive Event : Type :=
  | EvTouch (now : Q)
  | EvMarkRead (timestamp : option string) (now : string)
  | EvUpsert (now : string) (msgs : list Message)
  | EvSetAuth (key value : string)
  | EvLoopDecide (now : Q)
  | EvLoopPoll (poll_fn : Py nat) (now_iso : string)
  | EvLoopWake
  | EvCancel.

Definition with_poller (a : App) (p : Poller) : App :=
  {| poller := p; loop := loop a; db := db a |}.

Definition with_db (a : App) (d : Database) : App :=
  {| poller := poller a; loop := loop a; db := d |}.

(** One event; [None] when the loop is not at the point the event
    needs. *)
Definition step (a : App) (ev : Event) : option App :=
  match ev with
  | EvTouch now => Some (with_poller a (touch now (poller a)))
  | EvMarkRead timestamp now =>
      Some (with_db a (fst (mark_read timestamp now (db a))))
  | EvUpsert now msgs =>
      Some (with_db a (fst (upsert_messages now msgs (db a))))
  | EvSetAuth key value => Some (with_db a (set_auth key value (db a)))
  | EvLoopDecide now =>
      match loop a with
      | AtTop =>
          let (p, interval) := _loop_decide now (poller a) in
          Some {| poller := p; loop := AwaitPoll interval; db := db a |}
      | _ => None
      end
  | EvLoopPoll poll_fn now_iso =>
      match loop a with
      | AwaitPoll interval =>
          match _loop_poll poll_fn now_iso (db a) with
          | (inr _, d) =>
              Some {| poller := poller a;
                      loop := AwaitSleep interval;
                      db := d |}
          | (inl e, d) =>
              Some {| poller := poller a; loop := Finished e; db := d |}
          end
      | _ => None
      end
  | EvLoopWake =>
      match loop a with
      | AwaitSleep _ =>
          Some {| poller := poller a; loop := AtTop; db := db a |}
      | _ => None
      end
  | EvCancel =>
      match loop a with
      | AwaitPoll _ | AwaitSleep _ =>
          Some {| poller := poller a;
                  loop := Finished CancelledError;
                  db := db a |}
      | _ => None
      end
  end.

(** A sequence of events, from left to right. *)
Fixpoint run (evs : list Event) (a : App) : option App :=
  match evs with
  | [] => Some a
  | ev :: rest =>
      match step a ev with
      | Some a' => run rest a'
      | None => None
      end
  end.

(** One whole iteration with nothing in between: the decision, the
    poll and the sleep.  Returns the state when the sleep is over and
    the interval slept. *)
Definition tick (now : Q) (poll_fn : Py nat) (now_iso : string)
    (a : App) : option (App * Z) :=
  match run [EvLoopDecide now; EvLoopPoll poll_fn now_iso] a with
  | Some a1 =>
      match loop a1 with
      | AwaitSleep interval =>
          match step a1 EvLoopWake with
          | Some a2 => Some (a2, interval)
          | None => None
          end
      | _ => None
      end
  | None => None
  end.

(** The reading of the last [touch] in a sequence of events, [0]
    when there is none. *)
Definition last_touch_of (evs : list Event) : Q :=
  foldl (fun t ev => match ev with EvTouch now => now | _ => t end)
        0%Q evs.

(** Every reading of [time.monotonic()] in the sequence is positive. *)
Definition monotonic_positive (ev : Event) : Prop :=
  match ev with
  | EvTouch now => (0 < now)%Q
  | EvLoopDecide now => (0 < now)%Q
  | _ => True
  end.

(** ACTIVE is entered only by [touch], so an ACTIVE poller has been
    touched: the invariant behind the guard of the decay check. *)
Definition touched_if_active (p : Poller) : Prop :=
  _mode p = ACTIVE -> (0 < _last_skill_touch p)%Q.

(** The read marker a sequence of events leaves on a new database, as
    its [EvMarkRead] events alone determine it. *)
Definition last_mark_of (evs : list Event) : option string :=
  foldl (fun m ev =>
           match ev with
           | EvMarkRead timestamp now => Some (py_or timestamp now)
           | _ => m
           end)
        None evs.

Definition is_mark_read (ev : Event) : bool :=
  match ev with
  | EvMarkRead _ _ => true
  | _ => false
  end.

End Loop.

(** The polls of the application run [main.poll_fn] on the real
    fetcher. *)
Definition app_event {datetime : Type}
    (fromisoformat : string -> option datetime)
    (strftime_utc : datetime -> string) (ev : Event) : Prop :=
  match ev with
  | EvLoopPoll poll_fn _ =>
      exists (g : Google datetime) (now : string),
        poll_fn = app_poll_fn fromisoformat strftime_utc g now
  | _ => True
  end.

(** [m] leaves the connection related by [R] to what it was. *)
Definition frames (R : relation Database) {A : Type} (m : Py A) : Prop :=
  forall db, R db (snd (m db)).

(** Same table [state] and same table [messages]. *)
Definition same_state_messages (d d' : Database) : Prop :=
  state d' = state d /\ messages d' = messages d.

(** Same table [state]. *)
Definition same_state (d d' : Database) : Prop := state d' = state d.

(** Same table [state] except, possibly, at [key]. *)
Definition same_state_but (key : string) (d d' : Database) : Prop :=
  forall k, k <> key -> get_state k d' = get_state k d.

(** A [datetime] for examples: the ISO string itself, parsed when it is
    not empty. *)
Definition iso_fromisoformat (s : string) : option string :=
  if truthy s then Some s else None.

Definition iso_strftime_utc (d : string) : string := d.

(** A Google that serves [pages] to every listing and needs no token
    refresh. *)
Definition google_serving (pages : list (list RawMessage)) : Google string :=
  {| stale := fun _ _ => false;
     refresh := inl (OtherException "RefreshError");
     list_pages := fun _ _ => (pages, None) |}.

(** ** chat_api.py: the space and sending *)

(** A space as the Chat API returns it, and what [get_space_info]
    makes of it. *)
Record RawSpace : Type := {
  space_name : option string;
  space_displayName : option string;
  space_spaceType : option string
}.

Record SpaceInfo : Type := {
  info_name : option string;
  info_display_name : option string;
  info_type : option string
}.

Section Sender.

Variable datetime : Type.
Variable fromisoformat : string -> option datetime.

(** [chat_api.get_space_info]; [got] is what
    [spaces().get(name=...).execute()] answers. *)
Definition get_space_info (g : Google datetime) (got : exn + RawSpace)
    : Py SpaceInfo :=
  (svc <- _get_service fromisoformat g ;;
   match got with
   | inl e => raise e
   | inr space =>
       ret {| info_name := space_name space;
              info_display_name := space_displayName space;
              info_type := space_spaceType space |}
   end)%py.

(** [chat_api.send_message(db, text)]; [created text] is what
    [spaces().messages().create(...).execute()] answers. *)
Definition send_message (g : Google datetime)
    (created : string -> exn + RawMessage) (text : string) : Py Message :=
  (svc <- _get_service fromisoformat g ;;
   match created text with
   | inl e => raise e
   | inr msg => ret (_normalize msg)
   end)%py.

End Sender.

Arguments get_space_info {datetime} fromisoformat g got.
Arguments send_message {datetime} fromisoformat g created text.

(** ** routes.py *)

Module routes.

(** How a handler fails: it raises [HTTPException], the framework
    rejects the request with one, or an exception leaves the handler. *)
Inductive failure : Type :=
  | HTTPException (status_code : Z)
  | Uncaught (e : exn).

(** The body of [GET /messages/unread]. *)
Record Unread : Type := {
  resp_count : nat;
  resp_messages : list Row
}.

(** The body of [GET /status]. *)
Record Status : Type := {
  authenticated : bool;
  space_id : string;
  poll_mode : string;
  last_poll_at : option string;
  status_message_count : nat;
  status_unread_count : nat
}.

Section Handlers.

Variable datetime : Type.
Variable fromisoformat : string -> option datetime.
Variable sql_like : string -> string -> bool.
Variable GOOGLE_CHAT_SPACE_ID : string.

(** [_touch_skill]; [app.state.poller] is set for the whole life of
    the application. *)
Definition _touch_skill (now : Q) (a : App) : App :=
  with_poller a (touch now (poller a)).

(** [GET /messages]: [limit] defaults to 100 and the framework answers
    422, without calling the handler, unless [1 <= limit <= 1000]. *)
Definition get_messages (now : Q) (since : option string)
    (limit : option Z) (sender : option string) (a : App)
    : (failure + list Row) * App :=
  let limit := default 100%Z limit in
  if (1 <=? limit)%Z && (limit <=? 1000)%Z then
    let a1 := _touch_skill now a in
    (inr (get_messages sql_like since limit sender (db a1)), a1)
  else (inl (HTTPException 422), a).

(** [GET /messages/unread] *)
Definition get_unread (now : Q) (a : App) : Unread * App :=
  let a1 := _touch_skill now a in
  let msgs := get_unread_messages sql_like (db a1) in
  ({| resp_count := length msgs; resp_messages := msgs |}, a1).

(** [POST /messages/mark-read]; [body] is absent, or carries a
    timestamp or none; [wall] is the wall clock. *)
Definition mark_read (body : option (option string)) (wall : string)
    (a : App) : string * App :=
  let ts := match body with
            | Some b => b
            | None => None
            end in
  let (d, marker) := mark_read ts wall (db a) in
  (marker, with_db a d).

(** [POST /messages/send]; [wall] is the wall clock
    [upsert_messages] reads. *)
Definition send_chat_message (now : Q) (g : Google datetime)
    (created : string -> exn + RawMessage) (text : string) (wall : string)
    (a : App) : (failure + Message) * App :=
  let a1 := _touch_skill now a in
  match send_message fromisoformat g created text (db a1) with
  | (inl e, d) =>
      if isinstance_RuntimeError e
      then (inl (HTTPException 503), with_db a1 d)
      else (inl (Uncaught e), with_db a1 d)
  | (inr msg, d) =>
      let (d', _) := upsert_messages wall [msg] d in
      (inr msg, with_db a1 d')
  end.

(** [POST /polling/boost] *)
Definition boost_polling (now : Q) (a : App) : string * App :=
  ("active", _touch_skill now a).

(** [GET /status] *)
Definition status (a : App) : Status :=
  {| authenticated :=
       match get_auth "refresh_token" (db a) with
       | Some _ => true
       | None => false
       end;
     space_id := GOOGLE_CHAT_SPACE_ID;
     poll_mode := mode (poller a);
     last_poll_at := get_state "last_poll_at" (db a);
     status_message_count := message_count (db a);
     status_unread_count := unread_count (db a) |}.

End Handlers.

Arguments send_chat_message {datetime} fromisoformat now g created text wall a.

End routes.

(** ** Relations between two states of the connection *)

(** The table [messages] only grows at its end, and its [id]s stay
    pairwise distinct when they were. *)
Definition grows (d d' : Database) : Prop :=
  (exists added, messages d' = (messages d ++ added)%list) /\
  (NoDup (map row_id (messages d)) -> NoDup (map row_id (messages d'))).

(** Same table [auth] except, possibly, at the two slots a token
    refresh writes. *)
Definition same_auth_but_access (d d' : Database) : Prop :=
  forall k, k <> "access_token" -> k <> "token_expiry" ->
            get_auth k d' = get_auth k d.

(** The connection after a list of [set_auth] calls. *)
Definition set_auths (kvs : list (string * string)) (d : Database)
    : Database :=
  foldl (fun d kv => set_auth (fst kv) (snd kv) d) d kvs.

(** Events of the request handlers, as opposed to those of the loop. *)
Definition handler_event (ev : Event) : bool :=
  match ev with
  | EvTouch _ | EvMarkRead _ _ | EvUpsert _ _ | EvSetAuth _ _ => true
  | _ => false
  end.

(** The local [interval] of a suspended loop is one of the two
    configured intervals. *)
Definition interval_configured (config : Config) (a : App) : Prop :=
  match loop a with
  | AwaitPoll i | AwaitSleep i =>
      i = POLL_ACTIVE_INTERVAL config \/ i = POLL_IDLE_INTERVAL config
  | _ => True
  end.

(** The rows a [WHERE created_at > since] keeps. *)
Definition later_than (since : string) (rows : list Row) : list Row :=
  List.filter (fun r => String.ltb since (created_at r)) rows.

(** ** Creation times as instants

    The Chat API gives [createTime] as an RFC 3339 timestamp in UTC,
    the date and time of day to the second followed by [Z] or by a
    fraction of a second and [Z], the fraction written with as many
    digits as it needs.  The instant of such a timestamp is read here
    as the nineteen characters of date and time, which have fixed
    width and so follow each other as their instants do, and the
    fraction as a rational. *)

Definition is_digit (c : ascii) : bool :=
  Nat.leb 48 (nat_of_ascii c) && Nat.leb (nat_of_ascii c) 57.

Definition digit_value (c : ascii) : Z := Z.of_nat (nat_of_ascii c) - 48.

(** [s] against a pattern in which [0] stands for any digit and every
    other character for itself. *)
Fixpoint matches_pattern (pattern s : string) : bool :=
  match pattern, s with
  | EmptyString, EmptyString => true
  | String p pattern', String c s' =>
      (if Ascii.eqb p "0" then is_digit c else Ascii.eqb p c)
      && matches_pattern pattern' s'
  | _, _ => false
  end.

(** The digits of a fraction up to the closing [Z], as [num / den]. *)
Fixpoint fraction_of (s : string) (num : Z) (den : positive) : option Q :=
  match s with
  | String c rest =>
      if is_digit c
      then fraction_of rest (10 * num + digit_value c) (10 * den)
      else if Ascii.eqb c "Z" && String.eqb rest EmptyString
           then Some (num # den)%Q
           else None
  | EmptyString => None
  end.

Definition utc_instant (ts : string) : option (string * Q) :=
  let date_time := substring 0 19 ts in
  if matches_pattern "0000-00-00T00:00:00" date_time then
    match substring 19 (String.length ts - 19) ts with
    | String "Z" EmptyString => Some (date_time, 0%Q)
    | String "." (String c rest) =>
        if is_digit c
        then option_map (pair date_time) (fraction_of (String c rest) 0 1)
        else None
    | _ => None
    end
  else None.

(** [ts1] is a timestamp of an instant before that of [ts2]. *)
Definition earlier (ts1 ts2 : string) : bool :=
  match utc_instant ts1, utc_instant ts2 with
  | Some (dt1, f1), Some (dt2, f2) =>
      String.ltb dt1 dt2 || (String.eqb dt1 dt2 && Qgtb f2 f1)
  | _, _ => false
  end.

(** * Properties *)

(** ** Clock comparisons *)

Lemma Qgtb_true (x y : Q) : Qgtb x y = true <-> (y < x)%Q.
Proof.
  unfold Qgtb. rewrite negb_true_iff.
  destruct (Qle_bool x y) eqn:E.
  - apply Qle_bool_iff in E. split; [discriminate | intros H; lra].
  - split; [intros _ | reflexivity].
    apply Qnot_le_lt. intros H. apply Qle_bool_iff in H. congruence.
Qed.

Lemma Qgtb_false (x y : Q) : Qgtb x y = false <-> (x <= y)%Q.
Proof.
  unfold Qgtb. rewrite negb_false_iff. apply Qle_bool_iff.
Qed.

(** *** Rounding to binary64 is monotone at the integers of 53 bits *)

#[local] Open Scope Q_scope.

Lemma Qround_half_even_floor (x : Q) :
  (Qfloor x <= Qround_half_even x)%Z.
Proof.
  unfold Qround_half_even.
  destruct (Qcompare (x - inject_Z (Qfloor x)) (1 # 2)); try lia.
  destruct (Z.even (Qfloor x)); lia.
Qed.

Lemma Qround_half_even_ge (x : Q) (Y : Z) :
  inject_Z Y <= x -> (Y <= Qround_half_even x)%Z.
Proof.
  intros H. pose proof (Qround_half_even_floor x) as Hf.
  apply Qfloor_resp_le in H. rewrite Qfloor_Z in H. lia.
Qed.

Lemma Qround_half_even_le (x : Q) (Y : Z) :
  x <= inject_Z Y -> (Qround_half_even x <= Y)%Z.
Proof.
  intros H.
  assert (Hf : (Qfloor x <= Y)%Z).
  { apply Qfloor_resp_le in H. rewrite Qfloor_Z in H. exact H. }
  assert (Hup : inject_Z (Qfloor x) < x -> (Qfloor x + 1 <= Y)%Z).
  { intros Hlt.
    assert (Hq : inject_Z (Qfloor x) < inject_Z Y) by lra.
    rewrite <- Zlt_Qlt in Hq. lia. }
  unfold Qround_half_even.
  destruct (Qcompare (x - inject_Z (Qfloor x)) (1 # 2)) eqn:E.
  - apply Qeq_alt in E.
    destruct (Z.even (Qfloor x)); [exact Hf|]. apply Hup. lra.
  - exact Hf.
  - apply Qgt_alt in E. apply Hup. lra.
Qed.

Lemma Qpower2_pos (e : Z) : 0 < 2 ^ e.
Proof. apply Qpower_0_lt. reflexivity. Qed.

Lemma Qpower2_cancel (e : Z) : 2 ^ e * 2 ^ (- e) == 1.
Proof.
  rewrite <- Qpower_plus by discriminate.
  rewrite Z.add_opp_diag_r. reflexivity.
Qed.

Lemma b64_exponent_lower (x : Q) :
  ~ x == 0 ->
  b64_exponent x = (-1074)%Z \/ 2 ^ (b64_exponent x + 52) <= Qabs x.
Proof.
  intros Hx. unfold b64_exponent.
  set (k := (Z.log2 (Z.abs (Qnum x)) - Z.log2 (Z.pos (Qden x)))%Z).
  set (E := if Qle_bool (2 ^ k) (Qabs x) then k else (k - 1)%Z).
  destruct (Z.max_spec (E - 52) (-1074)) as [[_ ->] | [_ ->]];
    [left; reflexivity|].
  right. replace (E - 52 + 52)%Z with E by lia.
  unfold E. destruct (Qle_bool (2 ^ k) (Qabs x)) eqn:T.
  - apply Qle_bool_iff. exact T.
  - clear T E. destruct x as [n d]. unfold Qabs. cbn [Qnum Qden] in k.
    assert (Hn : (0 < Z.abs n)%Z).
    { assert (n <> 0%Z); [|lia]. intros ->. apply Hx. reflexivity. }
    destruct (Z.log2_spec (Z.abs n) Hn) as [Hlo _].
    destruct (Z.log2_spec (Z.pos d) (Pos2Z.is_pos d)) as [_ Hhi].
    set (a := Z.log2 (Z.abs n)) in *. set (b := Z.log2 (Z.pos d)) in *.
    assert (Ha : (0 <= a)%Z) by apply Z.log2_nonneg.
    assert (Hb : (0 <= b)%Z) by apply Z.log2_nonneg.
    replace (k - 1)%Z with (a - (b + 1))%Z by (unfold k; lia).
    rewrite Qpower_minus by discriminate.
    rewrite <- (Zpower_Qpower 2 a) by exact Ha.
    rewrite <- (Zpower_Qpower 2 (b + 1)) by lia.
    change (Z.abs n # d) with (Qmake (Z.abs n) d).
    unfold Qdiv, Qle, Qmult, Qinv, inject_Z at 1. simpl.
    assert (Hp : (0 < 2 ^ (b + 1))%Z) by (apply Z.pow_pos_nonneg; lia).
    destruct (2 ^ (b + 1))%Z as [|p|p] eqn:Ep; try lia.
    simpl. rewrite <- Z.add_1_r, Ep in Hhi.
    assert (H2 : (0 <= 2 ^ a)%Z) by (apply Z.pow_nonneg; lia).
    nia.
Qed.

Lemma inject_Z_nonneg (z : Z) : (0 <= z)%Z -> 0 <= inject_Z z.
Proof. intros H. change 0 with (inject_Z 0). rewrite <- Zle_Qle. exact H. Qed.

Lemma inject_Z_nonpos (z : Z) : (z <= 0)%Z -> inject_Z z <= 0.
Proof. intros H. change 0 with (inject_Z 0). rewrite <- Zle_Qle. exact H. Qed.

(** Rounding never carries a value over an integer of 53 bits. *)
Lemma b64_round_le_int (x : Q) (y : Z) :
  (0 <= y < 2 ^ 53)%Z ->
  x <= inject_Z y ->
  f64_gt_int (b64_round x) y = false.
Proof.
  intros Hy Hxy.
  assert (Hy0 : 0 <= inject_Z y) by (apply inject_Z_nonneg; lia).
  unfold b64_round.
  destruct (Qeq_bool x 0) eqn:E0.
  { simpl. apply Qgtb_false. exact Hy0. }
  apply Qeq_bool_neq in E0.
  set (e := b64_exponent x).
  set (m := Qround_half_even (x / 2 ^ e)).
  pose proof (Qpower2_pos e) as Hpe.
  destruct (Qlt_le_dec x 0) as [Hneg | Hpos].
  - (* a negative value rounds to a value that is not positive *)
    assert (Hm : (m <= 0)%Z).
    { apply (Qround_half_even_le _ 0).
      unfold Qdiv. change (inject_Z 0) with 0.
      assert (0 < / 2 ^ e) by (apply Qinv_lt_0_compat; exact Hpe).
      nra. }
    assert (Hr : inject_Z m * 2 ^ e <= 0).
    { assert (inject_Z m <= 0) by (apply inject_Z_nonpos; exact Hm).
      nra. }
    destruct (Qle_bool (2 ^ 1024) (Qabs (inject_Z m * 2 ^ e))).
    + destruct (Qle_bool 0 x) eqn:E; [|reflexivity].
      apply Qle_bool_iff in E. lra.
    + simpl. apply Qgtb_false. lra.
  - assert (Hx : 0 < x).
    { destruct (Qle_lt_or_eq _ _ Hpos) as [H | H]; [exact H|].
      exfalso. apply E0. symmetry. exact H. }
    assert (He : (e <= 0)%Z).
    { destruct (b64_exponent_lower x E0) as [H | H]; fold e in H; [lia|].
      rewrite (Qabs_pos x Hpos) in H.
      assert (H53 : inject_Z y < 2 ^ 53).
      { rewrite <- (Zpower_Qpower 2 53) by lia.
        rewrite <- Zlt_Qlt. lia. }
      assert (Hlt : 2 ^ (e + 52) < 2 ^ 53) by lra.
      apply Qpower_lt_compat_l_inv in Hlt; [lia | reflexivity]. }
    assert (Hs : 2 ^ (- e) == inject_Z (2 ^ (- e))).
    { rewrite (Zpower_Qpower 2 (- e)) by lia. reflexivity. }
    assert (Hw : x / 2 ^ e == x * 2 ^ (- e)).
    { rewrite Qpower_opp. reflexivity. }
    assert (Hm : (m <= y * 2 ^ (- e))%Z).
    { apply Qround_half_even_le. rewrite Hw, inject_Z_mult, <- Hs.
      pose proof (Qpower2_pos (- e)). nra. }
    assert (Hm0 : (0 <= m)%Z).
    { apply (Qround_half_even_ge _ 0). change (inject_Z 0) with 0.
      rewrite Hw. pose proof (Qpower2_pos (- e)). nra. }
    assert (Hr : inject_Z m * 2 ^ e <= inject_Z y).
    { rewrite Zle_Qle, inject_Z_mult, <- Hs in Hm.
      pose proof (Qpower2_cancel e) as Hc.
      assert (inject_Z m * 2 ^ e <= inject_Z y * 2 ^ (- e) * 2 ^ e) by nra.
      assert (inject_Z y * 2 ^ (- e) * 2 ^ e == inject_Z y).
      { rewrite <- Qmult_assoc, (Qmult_comm (2 ^ (- e))), Hc. ring. }
      lra. }
    assert (Hr0 : 0 <= inject_Z m * 2 ^ e).
    { assert (0 <= inject_Z m) by (apply inject_Z_nonneg; exact Hm0).
      nra. }
    destruct (Qle_bool (2 ^ 1024) (Qabs (inject_Z m * 2 ^ e))) eqn:Eo.
    + exfalso. apply Qle_bool_iff in Eo. rewrite (Qabs_pos _ Hr0) in Eo.
      assert (H53 : inject_Z y < 2 ^ 53).
      { rewrite <- (Zpower_Qpower 2 53) by lia.
        rewrite <- Zlt_Qlt. lia. }
      assert (Hbig : 2 ^ 53 <= 2 ^ 1024).
      { apply Qpower_le_compat_l; [lia | discriminate]. }
      lra.
    + simpl. apply Qgtb_false. exact Hr.
Qed.

(** Nor under one. *)
Lemma b64_round_ge_int (x : Q) (y : Z) :
  (0 <= y <= 2 ^ 53)%Z ->
  inject_Z y <= x ->
  match b64_round x with
  | Finite r => inject_Z y <= r
  | PosInf => True
  | NegInf => False
  end.
Proof.
  intros Hy Hxy.
  assert (Hy0 : 0 <= inject_Z y) by (apply inject_Z_nonneg; lia).
  unfold b64_round.
  destruct (Qeq_bool x 0) eqn:E0.
  { apply Qeq_bool_iff in E0. lra. }
  apply Qeq_bool_neq in E0.
  assert (Hpos : 0 <= x) by lra.
  set (e := b64_exponent x).
  set (m := Qround_half_even (x / 2 ^ e)).
  pose proof (Qpower2_pos e) as Hpe.
  assert (Hr : inject_Z y <= inject_Z m * 2 ^ e).
  { destruct (Z_le_gt_dec e 0) as [He | He].
    - assert (Hs : 2 ^ (- e) == inject_Z (2 ^ (- e))).
      { rewrite (Zpower_Qpower 2 (- e)) by lia. reflexivity. }
      assert (Hw : x / 2 ^ e == x * 2 ^ (- e)).
      { rewrite Qpower_opp. reflexivity. }
      assert (Hm : (y * 2 ^ (- e) <= m)%Z).
      { apply Qround_half_even_ge. rewrite Hw, inject_Z_mult, <- Hs.
        pose proof (Qpower2_pos (- e)). nra. }
      rewrite Zle_Qle, inject_Z_mult, <- Hs in Hm.
      pose proof (Qpower2_cancel e) as Hc.
      assert (inject_Z y * 2 ^ (- e) * 2 ^ e <= inject_Z m * 2 ^ e) by nra.
      assert (inject_Z y * 2 ^ (- e) * 2 ^ e == inject_Z y).
      { rewrite <- Qmult_assoc, (Qmult_comm (2 ^ (- e))), Hc. ring. }
      lra.
    - destruct (b64_exponent_lower x E0) as [H | H]; fold e in H; [lia|].
      rewrite (Qabs_pos x Hpos) in H.
      assert (Hm : (2 ^ 52 <= m)%Z).
      { apply Qround_half_even_ge.
        rewrite (Zpower_Qpower 2 52) by lia.
        rewrite Qpower_plus in H by discriminate.
        apply Qle_shift_div_l; [exact Hpe|].
        rewrite (Qmult_comm (inject_Z 2 ^ 52)). exact H. }
      assert (H1 : 2 ^ 1 <= 2 ^ e).
      { apply Qpower_le_compat_l; [lia | discriminate]. }
      assert (H53 : inject_Z y <= 2 ^ 53).
      { rewrite <- (Zpower_Qpower 2 53) by lia.
        rewrite <- Zle_Qle. lia. }
      rewrite Zle_Qle, (Zpower_Qpower 2 52) in Hm by lia.
      assert (Hsplit : 2 ^ 53 == inject_Z 2 ^ 52 * 2 ^ 1) by reflexivity.
      change (2 ^ 1) with 2 in *.
      assert (0 < inject_Z 2 ^ 52) by reflexivity.
      nra. }
  destruct (Qle_bool (2 ^ 1024) (Qabs (inject_Z m * 2 ^ e))).
  - destruct (Qle_bool 0 x) eqn:E; [exact I|].
    assert (Qle_bool 0 x = true) by (apply Qle_bool_iff; exact Hpos).
    congruence.
  - exact Hr.
Qed.

#[local] Close Scope Q_scope.

(** ** The polling state machine *)

Lemma touch_mode (now : Q) (p : Poller) : _mode (touch now p) = ACTIVE.
Proof. unfold touch. destruct p as [[] t]; reflexivity. Qed.

Lemma touch_signal (now : Q) (p : Poller) :
  _last_skill_touch (touch now p) = now.
Proof. unfold touch. destruct p as [[] t]; reflexivity. Qed.

Lemma touch_active (now : Q) (p : Poller) :
  _mode p = ACTIVE ->
  touch now p = {| _mode := _mode p; _last_skill_touch := now |}.
Proof. unfold touch. intros ->. reflexivity. Qed.

Section LoopFacts.

Variable config : Config.

#[local] Abbreviation step := (step config).
#[local] Abbreviation run := (run config).
#[local] Abbreviation _loop_decide := (_loop_decide config).

Lemma run_app (evs1 evs2 : list Event) (a : App) :
  run (evs1 ++ evs2) a =
  match run evs1 a with
  | Some a' => run evs2 a'
  | None => None
  end.
Proof.
  revert a. induction evs1 as [|ev evs1 IH]; intros a; simpl.
  - reflexivity.
  - destruct (step a ev); [apply IH | reflexivity].
Qed.

(** The decay check either keeps the poller or moves it from ACTIVE
    to IDLE; the signal is never written by the loop. *)
Lemma _loop_decide_cases (now : Q) (p : Poller) :
  (_loop_decide now p = (p, _current_interval config p) /\
   (_mode p = IDLE \/ (_last_skill_touch p <= 0)%Q \/
    f64_gt_int (b64_sub now (_last_skill_touch p))
               (POLL_DECAY_TIMEOUT config) = false))
  \/
  (_loop_decide now p =
     ({| _mode := IDLE; _last_skill_touch := _last_skill_touch p |},
      POLL_IDLE_INTERVAL config) /\
   _mode p = ACTIVE /\ (0 < _last_skill_touch p)%Q /\
   f64_gt_int (b64_sub now (_last_skill_touch p))
              (POLL_DECAY_TIMEOUT config) = true).
Proof.
  unfold _loop_decide, _current_interval. destruct p as [m t].
  cbn [_mode _last_skill_touch].
  destruct m; cbn [PollMode_eqb andb].
  - left. split; [reflexivity | left; reflexivity].
  - destruct (Qgtb t 0) eqn:E1.
    + destruct (f64_gt_int (b64_sub now t) (POLL_DECAY_TIMEOUT config))
        eqn:E2.
      * right. apply Qgtb_true in E1. repeat split; assumption.
      * left. split; [reflexivity | auto].
    + left. apply Qgtb_false in E1. split; [reflexivity | auto].
Qed.

(** An elapsed time of a whole second or more over the timeout is over
    the timeout after rounding too. *)
Lemma elapsed_over_timeout (now last : Q) :
  (0 <= POLL_DECAY_TIMEOUT config)%Z ->
  (POLL_DECAY_TIMEOUT config + 1 <= 2 ^ 53)%Z ->
  (inject_Z (POLL_DECAY_TIMEOUT config) + 1 <= now - last)%Q ->
  f64_gt_int (b64_sub now last) (POLL_DECAY_TIMEOUT config) = true.
Proof.
  intros H0 H53 Hlate.
  assert (Hq : (inject_Z (POLL_DECAY_TIMEOUT config + 1) <= now - last)%Q).
  { rewrite inject_Z_plus. exact Hlate. }
  assert (Hy : (0 <= POLL_DECAY_TIMEOUT config + 1 <= 2 ^ 53)%Z) by lia.
  pose proof (b64_round_ge_int _ _ Hy Hq) as Hr.
  unfold b64_sub. destruct (b64_round (now - last)) as [r | |].
  - cbn [f64_gt_int]. apply Qgtb_true.
    rewrite inject_Z_plus in Hr. change (inject_Z 1) with 1%Q in Hr. lra.
  - reflexivity.
  - destruct Hr.
Qed.

(** An elapsed time within the timeout is within it after rounding. *)
Lemma elapsed_within_timeout (now last : Q) :
  (0 <= POLL_DECAY_TIMEOUT config < 2 ^ 53)%Z ->
  (now - last <= inject_Z (POLL_DECAY_TIMEOUT config))%Q ->
  f64_gt_int (b64_sub now last) (POLL_DECAY_TIMEOUT config) = false.
Proof. intros HT Hle. apply b64_round_le_int; assumption. Qed.

Lemma _loop_decide_signal (now : Q) (p : Poller) :
  _last_skill_touch (fst (_loop_decide now p)) = _last_skill_touch p.
Proof.
  destruct (_loop_decide_cases now p) as [[-> _] | [-> _]]; reflexivity.
Qed.

Lemma step_touched_if_active (a a' : App) (ev : Event) :
  monotonic_positive ev ->
  step a ev = Some a' ->
  touched_if_active (poller a) ->
  touched_if_active (poller a').
Proof.
  intros Hpos Hstep Hinv.
  destruct ev as [now | ts now | now msgs | k v | now | pf iso | | ];
  simpl in Hstep.
  - injection Hstep as <-. intros _. simpl.
    rewrite touch_signal. exact Hpos.
  - injection Hstep as <-. exact Hinv.
  - injection Hstep as <-. exact Hinv.
  - injection Hstep as <-. exact Hinv.
  - destruct (loop a); try discriminate.
    destruct (_loop_decide_cases now (poller a)) as [[E _] | [E _]];
      rewrite E in Hstep; injection Hstep as <-; simpl.
    + exact Hinv.
    + intros H. discriminate H.
  - destruct (loop a); try discriminate.
    destruct (_loop_poll pf iso (db a)) as [[e | u] d];
      injection Hstep as <-; exact Hinv.
  - destruct (loop a); try discriminate.
    injection Hstep as <-. exact Hinv.
  - destruct (loop a); try discriminate;
      injection Hstep as <-; exact Hinv.
Qed.

Lemma run_touched_if_active (evs : list Event) (a a' : App) :
  Forall monotonic_positive evs ->
  run evs a = Some a' ->
  touched_if_active (poller a) ->
  touched_if_active (poller a').
Proof.
  revert a. induction evs as [|ev evs IH]; intros a Hpos Hrun Hinv.
  - injection Hrun as <-. exact Hinv.
  - simpl in Hrun. destruct (step a ev) as [a1|] eqn:E; [|discriminate].
    inversion Hpos as [|? ? Hev Hevs]; subst.
    apply (IH a1 Hevs Hrun).
    exact (step_touched_if_active a a1 ev Hev E Hinv).
Qed.

(** The signal is the reading of the last touch. *)
Lemma step_signal (a a' : App) (ev : Event) :
  step a ev = Some a' ->
  _last_skill_touch (poller a') =
  match ev with
  | EvTouch now => now
  | _ => _last_skill_touch (poller a)
  end.
Proof.
  intros Hstep.
destruct ev as [now | ts now | now msgs | k v | now | pf iso | | ];
  simpl in Hstep.
  - injection Hstep as <-. apply touch_signal.
  - injection Hstep as <-. reflexivity.
  - injection Hstep as <-. reflexivity.
  - injection Hstep as <-. reflexivity.
  - destruct (loop a); try discriminate.
    pose proof (_loop_decide_signal now (poller a)) as Hs.
    destruct (_loop_decide now (poller a)) as [p i].
    injection Hstep as <-. exact Hs.
  - destruct (loop a); try discriminate.
    destruct (_loop_poll pf iso (db a)) as [[e | u] d];
      injection Hstep as <-; reflexivity.
  - destruct (loop a); try discriminate.
    injection Hstep as <-. reflexivity.
  - destruct (loop a); try discriminate;
      injection Hstep as <-; reflexivity.
Qed.

Lemma run_signal (evs : list Event) (a a' : App) :
  run evs a = Some a' ->
  _last_skill_touch (poller a') =
  foldl (fun t ev => match ev with EvTouch now => now | _ => t end)
        (_last_skill_touch (poller a)) evs.
Proof.
  revert a. induction evs as [|ev evs IH]; intros a Hrun; simpl in *.
  - injection Hrun as <-. reflexivity.
  - destruct (step a ev) as [a1|] eqn:E; [|discriminate].
    rewrite (IH a1 Hrun). rewrite (step_signal a a1 ev E).
    destruct ev; reflexivity.
Qed.

(** C1. Whatever happened before, by any sequence of touches, loop
    steps and handler calls, a further [touch()] returns, leaves the
    mode ACTIVE and sets the activity signal to the clock reading it
    took; when the mode was ACTIVE already, the signal is all that
    changes.  The loop position and the store are not touched. *)
Theorem touch_always_active (evs : list Event) (a0 a : App) (now : Q) :
  run evs a0 = Some a ->
  exists a',
    run (evs ++ [EvTouch now]) a0 = Some a' /\
    _mode (poller a') = ACTIVE /\
    mode (poller a') = "active" /\
    _last_skill_touch (poller a') = now /\
    (_mode (poller a) = ACTIVE ->
     poller a' =
       {| _mode := _mode (poller a); _last_skill_touch := now |}) /\
    loop a' = loop a /\
    db a' = db a.
Proof.
  intros Hrun.
  exists (with_poller a (touch now (poller a))).
  rewrite run_app, Hrun. simpl.
  split; [reflexivity|].
  unfold mode. rewrite touch_mode, touch_signal.
  repeat split; try reflexivity.
  apply touch_active.
Qed.

(** C2, as amended.  After any sequence of events with positive clock
    readings, if the poller is ACTIVE, the loop is at the top of an
    iteration and the time since the last touch, as the subtraction of
    the two float readings gives it, is more than [POLL_DECAY_TIMEOUT],
    the iteration sets the mode to IDLE and sleeps
    [POLL_IDLE_INTERVAL], whatever its poll does.  For a timeout from 0
    to [2 ^ 53 - 1] this is the case whenever the readings are a second
    or more over the timeout apart.  No other step takes the mode out
    of ACTIVE, and an iteration started in IDLE stays in IDLE. *)
Theorem decay_to_idle :
  (forall (evs : list Event) (a : App) (now : Q),
     Forall monotonic_positive evs ->
     run evs App_init = Some a ->
     _mode (poller a) = ACTIVE ->
     loop a = AtTop ->
     f64_gt_int (b64_sub now (last_touch_of evs))
                (POLL_DECAY_TIMEOUT config) = true ->
     (exists a1,
        step a (EvLoopDecide now) = Some a1 /\
        _mode (poller a1) = IDLE /\
        loop a1 = AwaitPoll (POLL_IDLE_INTERVAL config)) /\
     (forall (poll_fn : Py nat) (now_iso : string),
        (forall e, fst (poll_fn (db a)) = inl e ->
                   isinstance_Exception e = true) ->
        exists a2,
          tick config now poll_fn now_iso a =
            Some (a2, POLL_IDLE_INTERVAL config) /\
          _mode (poller a2) = IDLE)) /\
  (forall (now last : Q),
     (0 <= POLL_DECAY_TIMEOUT config)%Z ->
     (POLL_DECAY_TIMEOUT config + 1 <= 2 ^ 53)%Z ->
     (inject_Z (POLL_DECAY_TIMEOUT config) + 1 <= now - last)%Q ->
     f64_gt_int (b64_sub now last) (POLL_DECAY_TIMEOUT config) = true) /\
  (forall (a a' : App) (ev : Event),
     step a ev = Some a' ->
     _mode (poller a) = ACTIVE ->
     _mode (poller a') <> ACTIVE ->
     exists now,
       ev = EvLoopDecide now /\
       loop a = AtTop /\
       (0 < _last_skill_touch (poller a))%Q /\
       f64_gt_int (b64_sub now (_last_skill_touch (poller a)))
                  (POLL_DECAY_TIMEOUT config) = true) /\
  (forall (a a' : App) (now : Q),
     step a (EvLoopDecide now) = Some a' ->
     _mode (poller a) = IDLE ->
     poller a' = poller a /\
     loop a' = AwaitPoll (POLL_IDLE_INTERVAL config)).
Proof.
  split; [|split; [exact elapsed_over_timeout|split]].
  - intros evs a now Hpos Hrun Hact Htop Hlate.
    assert (Htouched : (0 < _last_skill_touch (poller a))%Q).
    { apply (run_touched_if_active evs App_init a Hpos Hrun); [|exact Hact].
      intros H. discriminate H. }
    assert (Hsig : _last_skill_touch (poller a) = last_touch_of evs).
    { apply (run_signal evs App_init a Hrun). }
    rewrite <- Hsig in Hlate.
    destruct (_loop_decide_cases now (poller a))
      as [[_ [H | [H | H]]] | [E _]].
    + congruence.
    + lra.
    + congruence.
    + split.
      * eexists. simpl. rewrite Htop, E. split; [reflexivity|].
        split; reflexivity.
      * intros pf iso Hexn. unfold tick. simpl.
        rewrite Htop, E. simpl.
        unfold _loop_poll, try_except, bind, exec.
        destruct (pf (db a)) as [[e | n] d] eqn:Epf; simpl in *.
        -- rewrite (Hexn e eq_refl). simpl.
           eexists. split; reflexivity.
        -- eexists. split; reflexivity.
  - intros a a' ev Hstep Hact Hleft.
    destruct ev as [now | ts now | now msgs | k v | now | pf iso | | ];
      simpl in Hstep.
    + injection Hstep as <-. simpl in Hleft.
      rewrite touch_mode in Hleft. congruence.
    + injection Hstep as <-. simpl in Hleft. congruence.
    + injection Hstep as <-. simpl in Hleft. congruence.
    + injection Hstep as <-. simpl in Hleft. congruence.
    + destruct (loop a) eqn:El; try discriminate.
      destruct (_loop_decide_cases now (poller a))
        as [[E _] | [E [_ [H1 H2]]]];
        rewrite E in Hstep; injection Hstep as <-; simpl in Hleft.
      * congruence.
      * exists now. repeat split; assumption.
    + destruct (loop a); try discriminate.
      destruct (_loop_poll pf iso (db a)) as [[e | u] d];
        injection Hstep as <-; simpl in Hleft; congruence.
    + destruct (loop a); try discriminate.
      injection Hstep as <-. simpl in Hleft. congruence.
    + destruct (loop a); try discriminate;
        injection Hstep as <-; simpl in Hleft; congruence.
  - intros a a' now Hstep Hidle. simpl in Hstep.
    destruct (loop a); try discriminate.
    unfold _loop_decide, _current_interval in Hstep.
    rewrite Hidle in Hstep. simpl in Hstep.
    injection Hstep as <-. split; reflexivity.
Qed.

(** C3. When the poll of an iteration raises an [Exception], the loop
    goes on to its sleep with the interval the iteration computed before
    the poll, the poller is as the decay check left it, and the store is
    as the failed poll left it; run as a whole, the iteration ends back
    at the top of the loop with the same poller and the same interval
    as an iteration whose poll succeeds. *)
Theorem poll_failure_swallowed :
  (forall (a : App) (interval : Z) (poll_fn : Py nat) (now_iso : string)
          (e : exn) (d : Database),
     loop a = AwaitPoll interval ->
     poll_fn (db a) = (inl e, d) ->
     isinstance_Exception e = true ->
     step a (EvLoopPoll poll_fn now_iso) =
       Some {| poller := poller a; loop := AwaitSleep interval; db := d |}) /\
  (forall (a : App) (now : Q) (poll_fn : Py nat) (now_iso : string)
          (e : exn) (d : Database),
     loop a = AtTop ->
     poll_fn (db a) = (inl e, d) ->
     isinstance_Exception e = true ->
     tick config now poll_fn now_iso a =
       Some ({| poller := fst (_loop_decide now (poller a));
                loop := AtTop;
                db := d |},
             snd (_loop_decide now (poller a))) /\
     forall (poll_ok : Py nat) (n : nat) (d' : Database),
       poll_ok (db a) = (inr n, d') ->
       tick config now poll_ok now_iso a =
         Some ({| poller := fst (_loop_decide now (poller a));
                  loop := AtTop;
                  db := set_state "last_poll_at" now_iso d' |},
               snd (_loop_decide now (poller a)))).
Proof.
  split.
  - intros a interval pf iso e d Hloop Hpf Hexn. simpl.
    rewrite Hloop.
    unfold _loop_poll, try_except, bind. rewrite Hpf, Hexn.
    reflexivity.
  - intros a now pf iso e d Hloop Hpf Hexn.
    split.
    + unfold tick. simpl. rewrite Hloop.
      destruct (_loop_decide now (poller a)) as [p i]. simpl.
      unfold _loop_poll, try_except, bind. rewrite Hpf, Hexn.
      reflexivity.
    + intros pf' n d' Hok.
      unfold tick. simpl. rewrite Hloop.
      destruct (_loop_decide now (poller a)) as [p i]. simpl.
      unfold _loop_poll, try_except, bind, exec. rewrite Hok.
      reflexivity.
Qed.

(** C9. A new poller is IDLE with the activity signal at zero, and
    after any sequence of events whose clock readings are positive an
    ACTIVE poller has a positive activity signal, so the guard of the
    decay check holds whenever the mode is ACTIVE. *)
Theorem active_implies_touched :
  (_mode Poller_init = IDLE /\ _last_skill_touch Poller_init = 0%Q) /\
  (forall (evs : list Event) (a : App),
     Forall monotonic_positive evs ->
     run evs App_init = Some a ->
     _mode (poller a) = ACTIVE ->
     (0 < _last_skill_touch (poller a))%Q /\
     PollMode_eqb (_mode (poller a)) ACTIVE
       && Qgtb (_last_skill_touch (poller a)) 0 = true).
Proof.
  split; [split; reflexivity|].
  intros evs a Hpos Hrun Hact.
  assert (Ht : (0 < _last_skill_touch (poller a))%Q).
  { apply (run_touched_if_active evs App_init a Hpos Hrun); [|exact Hact].
    intros H. discriminate H. }
  split; [exact Ht|].
  rewrite Hact. simpl. apply Qgtb_true. exact Ht.
Qed.

(** The assumption on the clock is needed: a touch that read the clock
    at zero would leave the poller ACTIVE with the signal at zero, and
    the decay check would then never leave ACTIVE. *)
Remark touch_at_clock_zero (now : Q) :
  let p := touch 0 Poller_init in
  _mode p = ACTIVE /\ _last_skill_touch p = 0%Q /\
  _loop_decide now p = (p, POLL_ACTIVE_INTERVAL config).
Proof. repeat split. Qed.

End LoopFacts.

(** ** The order on TEXT values *)

Lemma string_ltb_lt (a b : string) :
  String.ltb a b = true <-> String_as_OT.lt a b.
Proof.
  rewrite <- String_as_OT.cmp_lt. unfold String.ltb, String_as_OT.cmp.
  destruct (String.compare a b); split; congruence.
Qed.

Lemma string_leb_lt_eq (a b : string) :
  String.leb a b = true <-> a = b \/ String_as_OT.lt a b.
Proof.
  rewrite <- String_as_OT.cmp_lt, <- String_as_OT.cmp_eq.
  unfold String.leb, String_as_OT.cmp.
  destruct (String.compare a b); split; try congruence; auto.
  intros [H | H]; discriminate H.
Qed.

Lemma string_leb_refl (a : string) : String.leb a a = true.
Proof. apply string_leb_lt_eq. left. reflexivity. Qed.

Lemma string_leb_trans (a b c : string) :
  String.leb a b = true -> String.leb b c = true -> String.leb a c = true.
Proof.
  rewrite !string_leb_lt_eq. intros [-> | Hab] [-> | Hbc]; auto.
  right. exact (String_as_OT.lt_trans a b c Hab Hbc).
Qed.

Lemma string_ltb_leb (a b : string) :
  String.ltb a b = true -> String.leb a b = true.
Proof.
  rewrite string_ltb_lt, string_leb_lt_eq. auto.
Qed.

#[global] Instance created_le_total : Total created_le.
Proof. intros r1 r2. apply String.leb_total. Qed.

#[global] Instance created_le_trans : Transitive created_le.
Proof. intros r1 r2 r3. apply string_leb_trans. Qed.

Lemma insert_by_created_at_perm (r : Row) (rows : list Row) :
  insert_by_created_at r rows ≡ₚ r :: rows.
Proof.
  induction rows as [|r' rest IH]; simpl; [reflexivity|].
  destruct (String.leb (created_at r) (created_at r')); [reflexivity|].
  rewrite IH. apply Permutation_swap.
Qed.

Lemma insert_by_created_at_sorted (r : Row) (rows : list Row) :
  StronglySorted created_le rows ->
  StronglySorted created_le (insert_by_created_at r rows).
Proof.
  induction rows as [|r' rest IH]; intros Hs; simpl.
  - repeat constructor.
  - apply StronglySorted_inv in Hs. destruct Hs as [Hrest Hall].
    destruct (String.leb (created_at r) (created_at r')) eqn:E.
    + constructor; [constructor; assumption|].
      constructor; [exact E|].
      eapply Forall_impl; [exact Hall|].
      intros x Hx. exact (string_leb_trans _ _ _ E Hx).
    + constructor; [apply IH; exact Hrest|].
      rewrite (insert_by_created_at_perm r rest).
      constructor; [|exact Hall].
      destruct (String.leb_total (created_at r') (created_at r)) as [H | H];
        [exact H | congruence].
Qed.

Lemma order_by_created_at_asc_perm (rows : list Row) :
  order_by_created_at_asc rows ≡ₚ rows.
Proof.
  induction rows as [|r rows IH]; simpl; [reflexivity|].
  rewrite insert_by_created_at_perm. rewrite IH. reflexivity.
Qed.

Lemma order_by_created_at_asc_sorted (rows : list Row) :
  StronglySorted created_le (order_by_created_at_asc rows).
Proof.
  induction rows as [|r rows IH]; simpl; [constructor|].
  apply insert_by_created_at_sorted. exact IH.
Qed.

(** Rows with the same creation time keep the order of the table. *)
Lemma order_by_created_at_asc_tie (r1 r2 : Row) :
  created_at r1 = created_at r2 ->
  order_by_created_at_asc [r1; r2] = [r1; r2].
Proof.
  intros H. unfold order_by_created_at_asc. simpl.
  rewrite H, string_leb_refl. reflexivity.
Qed.

(** ** The message table *)

Lemma has_id_true (i : string) (rows : list Row) :
  has_id i rows = true <-> i ∈ map row_id rows.
Proof.
  unfold has_id. rewrite existsb_exists, list_elem_of_In, in_map_iff.
  split; intros [r [H1 H2]]; exists r.
  - apply String.eqb_eq in H2. split; [exact H2 | exact H1].
  - apply String.eqb_eq in H1. split; [exact H2 | exact H1].
Qed.

Lemma has_id_false (i : string) (rows : list Row) :
  has_id i rows = false <-> i ∉ map row_id rows.
Proof.
  rewrite <- has_id_true. destruct (has_id i rows); split; congruence.
Qed.

(** A statement whose [id] is taken changes nothing, counter included. *)
Lemma insert_or_ignore_present (r : Row) (db : Database) :
  has_id (row_id r) (messages db) = true -> insert_or_ignore r db = db.
Proof. unfold insert_or_ignore. intros ->. reflexivity. Qed.

Lemma insert_or_ignore_absent (r : Row) (db : Database) :
  has_id (row_id r) (messages db) = false ->
  messages (insert_or_ignore r db) = (messages db ++ [r])%list /\
  total_changes (insert_or_ignore r db) = S (total_changes db).
Proof. unfold insert_or_ignore. intros ->. split; reflexivity. Qed.

(** The primary key stays a key. *)
Lemma insert_or_ignore_NoDup (r : Row) (db : Database) :
  NoDup (map row_id (messages db)) ->
  NoDup (map row_id (messages (insert_or_ignore r db))).
Proof.
  intros Hnd. unfold insert_or_ignore.
  destruct (has_id (row_id r) (messages db)) eqn:E; [exact Hnd|].
  simpl. rewrite map_app. simpl. apply NoDup_app.
  split; [exact Hnd|]. split; [|apply NoDup_singleton].
  intros i Hi Hr. apply list_elem_of_singleton in Hr. subst i.
  apply has_id_false in E. contradiction.
Qed.

Lemma insert_or_ignore_tables (r : Row) (db : Database) :
  state (insert_or_ignore r db) = state db /\
  auth (insert_or_ignore r db) = auth db.
Proof.
  unfold insert_or_ignore.
  destruct (has_id (row_id r) (messages db)); split; reflexivity.
Qed.

Lemma upsert_loop_NoDup (now : string) (msgs : list Message)
    (db : Database) (n : nat) :
  NoDup (map row_id (messages db)) ->
  NoDup (map row_id (messages (fst (upsert_loop now msgs db n)))).
Proof.
  revert db n. induction msgs as [|m msgs IH]; intros db n Hnd; simpl.
  - exact Hnd.
  - apply IH. apply insert_or_ignore_NoDup. exact Hnd.
Qed.

Lemma upsert_loop_tables (now : string) (msgs : list Message)
    (db : Database) (n : nat) :
  state (fst (upsert_loop now msgs db n)) = state db /\
  auth (fst (upsert_loop now msgs db n)) = auth db.
Proof.
  revert db n. induction msgs as [|m msgs IH]; intros db n; simpl.
  - split; reflexivity.
  - destruct (IH (insert_or_ignore (row_of now m) db)
                 (n + total_changes (insert_or_ignore (row_of now m) db)))
      as [H1 H2].
    destruct (insert_or_ignore_tables (row_of now m) db) as [H3 H4].
    split; congruence.
Qed.

(** [upsert_messages] never writes the table [state]. *)
Lemma upsert_messages_state (now : string) (msgs : list Message)
    (db : Database) :
  state (fst (upsert_messages now msgs db)) = state db.
Proof. apply upsert_loop_tables. Qed.

(** Upserting one message whose identity is stored: no row is added,
    nothing is raised, and the count returned is the running value of
    [conn.total_changes]. *)
Lemma upsert_messages_present (now : string) (m : Message) (db : Database) :
  has_id (msg_id m) (messages db) = true ->
  upsert_messages now [m] db = (db, total_changes db).
Proof.
  intros H. unfold upsert_messages. simpl.
  rewrite insert_or_ignore_present by exact H. reflexivity.
Qed.

(** C4. On a new database, a message upserted twice is stored once and
    neither call raises, but the second call returns 1, the value of
    [conn.total_changes], where a count of new rows would be 0. *)
Theorem upsert_twice_count :
  let m := {| msg_id := "spaces/S/messages/a";
              msg_sender_name := "Ann";
              msg_sender_email := None;
              msg_text := "hello";
              msg_created_at := "2024-05-01T10:00:00.000000Z" |} in
  let first := upsert_messages "2024-05-01T10:00:30" [m] Database_init in
  let second := upsert_messages "2024-05-01T10:01:00" [m] (fst first) in
  snd first = 1 /\
  messages (fst second) = messages (fst first) /\
  length (messages (fst second)) = 1 /\
  snd second = 1.
Proof. repeat split. Qed.

(** The latest creation time is that of a stored row and bounds every
    stored row; it is absent exactly when the table is empty. *)
Lemma latest_message_time_spec (db : Database) :
  match latest_message_time db with
  | None => messages db = []
  | Some ts =>
      (exists r, r ∈ messages db /\ created_at r = ts) /\
      (forall r, r ∈ messages db -> String.leb (created_at r) ts = true)
  end.
Proof.
  unfold latest_message_time, order_by_created_at_desc, sql_limit.
  simpl.
  pose proof (order_by_created_at_asc_perm (messages db)) as Hperm.
  pose proof (order_by_created_at_asc_sorted (messages db)) as Hsort.
  rewrite <- (rev_involutive (order_by_created_at_asc (messages db)))
    in Hperm, Hsort.
  destruct (rev (order_by_created_at_asc (messages db))) as [|r rest].
  - simpl in Hperm. apply Permutation_nil in Hperm. exact Hperm.
  - simpl in Hperm, Hsort. simpl. split.
    + exists r. split; [|reflexivity].
      rewrite <- Hperm. apply elem_of_app. right. apply list_elem_of_here.
    + intros r' Hr'. rewrite <- Hperm in Hr'.
      apply elem_of_app in Hr'. destruct Hr' as [Hr' | Hr'].
      * exact (StronglySorted_app_1_elem_of _ _ _ r' r Hsort Hr'
                 (list_elem_of_here _ _)).
      * apply list_elem_of_singleton in Hr'. subst r'.
        apply string_leb_refl.
Qed.

Lemma latest_message_time_unique (db : Database) (r : Row) :
  r ∈ messages db ->
  (forall r', r' ∈ messages db ->
              String.leb (created_at r') (created_at r) = true) ->
  latest_message_time db = Some (created_at r).
Proof.
  intros Hin Hmax. pose proof (latest_message_time_spec db) as Hspec.
  destruct (latest_message_time db) as [ts|].
  - destruct Hspec as [[r0 [Hr0 <-]] Hbound]. f_equal.
    apply String.leb_antisym; [apply Hmax | apply Hbound]; assumption.
  - rewrite Hspec in Hin. inversion Hin.
Qed.

(** Membership in a table of two rows. *)
Ltac two_rows :=
  rewrite ?elem_of_cons, ?elem_of_nil; intuition auto.

Lemma upsert_two_new (now1 now2 : string) (m1 m2 : Message)
    (db0 : Database) :
  messages db0 = [] ->
  msg_id m1 <> msg_id m2 ->
  messages (fst (upsert_messages now2 [m2]
                   (fst (upsert_messages now1 [m1] db0)))) =
    [row_of now1 m1; row_of now2 m2] /\
  messages (fst (upsert_messages now1 [m1; m2] db0)) =
    [row_of now1 m1; row_of now1 m2].
Proof.
  intros Hempty Hne.
  assert (E : String.eqb (msg_id m1) (msg_id m2) = false).
  { apply String.eqb_neq. exact Hne. }
  unfold upsert_messages. simpl. unfold insert_or_ignore at 2 4. simpl.
  rewrite Hempty. simpl. unfold insert_or_ignore. simpl.
  rewrite E. simpl. split; reflexivity.
Qed.

(** C6, as amended.  [latest_message_time] is absent on an empty table
    and otherwise the creation time of a stored row that no stored row
    exceeds in the order of the TEXT column, the order of the strings
    byte by byte; two messages with distinct identities and creation
    times [T1 < T2] in that order, upserted into an empty table, leave
    [T2] as the latest, in either order and in one call or two. *)
Theorem latest_message_time_is_max :
  (forall db, messages db = [] -> latest_message_time db = None) /\
  (forall db, messages db <> [] ->
     exists r,
       r ∈ messages db /\
       latest_message_time db = Some (created_at r) /\
       forall r', r' ∈ messages db ->
                  String.leb (created_at r') (created_at r) = true) /\
  (forall (db0 : Database) (now1 now2 : string) (m1 m2 : Message),
     messages db0 = [] ->
     msg_id m1 <> msg_id m2 ->
     String.ltb (msg_created_at m1) (msg_created_at m2) = true ->
     let T2 := msg_created_at m2 in
     latest_message_time
       (fst (upsert_messages now2 [m2]
               (fst (upsert_messages now1 [m1] db0)))) = Some T2 /\
     latest_message_time
       (fst (upsert_messages now2 [m1]
               (fst (upsert_messages now1 [m2] db0)))) = Some T2 /\
     latest_message_time (fst (upsert_messages now1 [m1; m2] db0)) = Some T2 /\
     latest_message_time (fst (upsert_messages now1 [m2; m1] db0)) = Some T2).
Proof.
  split; [|split].
  - intros db Hempty. unfold latest_message_time. rewrite Hempty.
    reflexivity.
  - intros db Hne. pose proof (latest_message_time_spec db) as Hspec.
    destruct (latest_message_time db) as [ts|]; [|contradiction].
    destruct Hspec as [[r [Hr <-]] Hbound].
    exists r. repeat split; assumption.
  - intros db0 now1 now2 m1 m2 Hempty Hne Hlt T2.
    assert (Hle : String.leb (msg_created_at m1) (msg_created_at m2) = true)
      by (apply string_ltb_leb; exact Hlt).
    assert (Hne' : msg_id m2 <> msg_id m1) by congruence.
    destruct (upsert_two_new now1 now2 m1 m2 db0 Hempty Hne) as [E1 E2].
    destruct (upsert_two_new now1 now2 m2 m1 db0 Hempty Hne') as [E3 E4].
    assert (Hmax : forall (n1 n2 : string) (rows : list Row) (d : Database),
               messages d = rows ->
               row_of n2 m2 ∈ rows ->
               (forall r', r' ∈ rows -> r' = row_of n1 m1 \/ r' = row_of n2 m2) ->
               latest_message_time d = Some T2).
    { intros n1 n2 rows d Hd Hin Hall.
      apply (latest_message_time_unique d (row_of n2 m2)).
      - rewrite Hd. exact Hin.
      - intros r' Hr'. rewrite Hd in Hr'.
        destruct (Hall r' Hr') as [-> | ->]; simpl.
        + exact Hle.
        + apply string_leb_refl. }
    repeat split.
    + apply (Hmax now1 now2 _ _ E1); [|intros r']; two_rows.
    + apply (Hmax now2 now1 _ _ E3); [|intros r']; two_rows.
    + apply (Hmax now1 now1 _ _ E2); [|intros r']; two_rows.
    + apply (Hmax now1 now1 _ _ E4); [|intros r']; two_rows.
Qed.

(** ** Unread messages *)

Lemma get_messages_all (sql_like : string -> string -> bool)
    (limit : nat) (db : Database) :
  get_messages sql_like None (Z.of_nat limit) None db =
  take limit (order_by_created_at_asc (messages db)).
Proof.
  unfold get_messages, sql_limit. simpl. rewrite filter_true.
  destruct (Z.ltb_spec (Z.of_nat limit) 0) as [H | _]; [lia|].
  rewrite Nat2Z.id. reflexivity.
Qed.

(** C10. With no read marker, [get_unread_messages] returns the first
    50 rows of the table in ascending order of creation time, all of
    it when it holds fewer, while [unread_count] is the size of the
    table; past 50 stored messages the count exceeds what the query
    returns. *)
Theorem unread_without_marker (sql_like : string -> string -> bool)
    (db : Database) :
  get_state "read_marker" db = None ->
  let unread := get_unread_messages sql_like db in
  length unread = Nat.min 50 (length (messages db)) /\
  StronglySorted created_le unread /\
  (exists rest,
     (unread ++ rest)%list ≡ₚ messages db /\
     forall r r', r ∈ unread -> r' ∈ rest -> created_le r r') /\
  unread_count db = length (messages db) /\
  (50 < length (messages db) ->
   length unread = 50 /\ length unread < unread_count db).
Proof.
  intros Hmarker unread.
  assert (E : unread = take 50 (order_by_created_at_asc (messages db))).
  { unfold unread, get_unread_messages. rewrite Hmarker. simpl.
    apply (get_messages_all sql_like 50 db). }
  assert (Hcount : unread_count db = length (messages db)).
  { unfold unread_count. rewrite Hmarker. reflexivity. }
  pose proof (order_by_created_at_asc_perm (messages db)) as Hperm.
  pose proof (order_by_created_at_asc_sorted (messages db)) as Hsort.
  assert (Hlen : length unread = Nat.min 50 (length (messages db))).
  { rewrite E, length_take, (Permutation_length Hperm). reflexivity. }
  rewrite <- (take_drop 50 (order_by_created_at_asc (messages db))) in Hsort.
  rewrite <- E in Hsort.
  split; [exact Hlen|].
  split; [exact (StronglySorted_app_1_l _ _ _ Hsort)|].
  split.
  - exists (drop 50 (order_by_created_at_asc (messages db))). split.
    + rewrite E, take_drop. exact Hperm.
    + intros r r' Hr Hr'.
      exact (StronglySorted_app_1_elem_of _ _ _ r r' Hsort Hr Hr').
  - split; [exact Hcount|].
    intros Hmany. rewrite Hcount, Hlen. lia.
Qed.

(** ** What a computation leaves untouched *)

Section Frames.

Variable R : relation Database.
Context `{!Reflexive R, !Transitive R}.

Lemma frames_ret {A : Type} (a : A) : frames R (ret a).
Proof. intros d. simpl. reflexivity. Qed.

Lemma frames_raise {A : Type} (e : exn) : frames R (@raise A e).
Proof. intros d. simpl. reflexivity. Qed.

Lemma frames_query {A : Type} (f : Database -> A) : frames R (query f).
Proof. intros d. simpl. reflexivity. Qed.

Lemma frames_exec (f : Database -> Database) :
  (forall d, R d (f d)) -> frames R (exec f).
Proof. intros Hf d. simpl. apply Hf. Qed.

Lemma frames_bind {A B : Type} (m : Py A) (k : A -> Py B) :
  frames R m -> (forall a, frames R (k a)) -> frames R (bind m k).
Proof.
  intros Hm Hk d. unfold bind. specialize (Hm d).
  destruct (m d) as [[e | a] d1]; simpl in *.
  - exact Hm.
  - transitivity d1; [exact Hm | apply Hk].
Qed.

Lemma frames_try_except {A B : Type} (m : Py A) (catches : exn -> bool)
    (h : Py B) (k : A -> Py B) :
  frames R m -> frames R h -> (forall a, frames R (k a)) ->
  frames R (try_except m catches h k).
Proof.
  intros Hm Hh Hk d. unfold try_except. specialize (Hm d).
  destruct (m d) as [[e | a] d1]; simpl in *.
  - destruct (catches e); simpl.
    + transitivity d1; [exact Hm | apply Hh].
    + exact Hm.
  - transitivity d1; [exact Hm | apply Hk].
Qed.

End Frames.

(** The rules above, applied by shape. *)
Ltac fr_bind := refine (frames_bind _ _ _ _ _).
Ltac fr_try := refine (frames_try_except _ _ _ _ _ _ _ _).
Ltac fr_exec := refine (frames_exec _ _ _).
Ltac fr_leaf :=
  first [ exact (frames_ret _ _)
        | exact (frames_raise _ _)
        | exact (frames_query _ _) ].

#[global] Instance same_state_messages_refl : Reflexive same_state_messages.
Proof. intros d. split; reflexivity. Qed.

#[global] Instance same_state_messages_trans : Transitive same_state_messages.
Proof. intros d1 d2 d3 [H1 H2] [H3 H4]. split; congruence. Qed.

#[global] Instance same_state_refl : Reflexive same_state.
Proof. intros d. reflexivity. Qed.

#[global] Instance same_state_trans : Transitive same_state.
Proof. intros d1 d2 d3 H1 H2. unfold same_state in *. congruence. Qed.

#[global] Instance same_state_but_refl key : Reflexive (same_state_but key).
Proof. intros d k _. reflexivity. Qed.

#[global] Instance same_state_but_trans key : Transitive (same_state_but key).
Proof.
  intros d1 d2 d3 H1 H2 k Hk. rewrite (H2 k Hk). apply (H1 k Hk).
Qed.

Lemma set_auth_same_state_messages (key value : string) (d : Database) :
  same_state_messages d (set_auth key value d).
Proof. split; reflexivity. Qed.

Lemma set_state_same_state_but (key value : string) (d : Database) :
  same_state_but key d (set_state key value d).
Proof.
  intros k Hk. unfold get_state, set_state. simpl.
  apply lookup_insert_ne. congruence.
Qed.

Lemma same_state_same_state_but (key : string) (d d' : Database) :
  same_state d d' -> same_state_but key d d'.
Proof. intros H k _. unfold get_state. rewrite H. reflexivity. Qed.

Section FetcherFacts.

Variable datetime : Type.
Variable fromisoformat : string -> option datetime.
Variable strftime_utc : datetime -> string.
Variable config : Config.

#[local] Abbreviation load_credentials := (load_credentials fromisoformat).
#[local] Abbreviation list_messages :=
  (list_messages fromisoformat strftime_utc).
#[local] Abbreviation poll_after := (poll_after fromisoformat).
#[local] Abbreviation poll_fn := (poll_fn fromisoformat).
#[local] Abbreviation app_poll_fn :=
  (app_poll_fn fromisoformat strftime_utc).
#[local] Abbreviation filter_str := (filter_str strftime_utc).
#[local] Abbreviation app_event := (app_event fromisoformat strftime_utc).
#[local] Abbreviation step := (step config).
#[local] Abbreviation run := (run config).

(** The fetcher writes the table [auth] only. *)
Lemma load_credentials_frames (g : Google datetime) :
  frames same_state_messages (load_credentials g).
Proof.
  unfold load_credentials.
  fr_bind; [fr_leaf|]. intros rt.
  destruct (negb (truthy_opt rt)); [fr_leaf|].
  fr_bind; [fr_leaf|]. intros at_.
  fr_bind; [fr_leaf|]. intros er.
  fr_bind.
  { destruct (truthy_opt er); [|fr_leaf].
    destruct (fromisoformat (default EmptyString er));
      [fr_leaf | fr_leaf]. }
  intros expiry.
  destruct (stale g at_ expiry); [|fr_leaf].
  destruct (refresh g) as [e | [tok exp]]; [fr_leaf|].
  fr_bind.
  { fr_exec; intros d. apply set_auth_same_state_messages. }
  intros _. fr_bind; [|intros _; fr_leaf].
  destruct exp; [|fr_leaf].
  fr_exec; intros d. apply set_auth_same_state_messages.
Qed.

Lemma list_messages_frames (g : Google datetime) (after : option datetime)
    (page_size : Z) :
  frames same_state_messages (list_messages g after page_size).
Proof.
  unfold list_messages, _get_service.
  fr_bind.
  { fr_bind; [apply load_credentials_frames|].
    intros [c|]; [fr_leaf | fr_leaf]. }
  intros svc.
  destruct (list_pages g (filter_str after) (page_size `min` 1000))
    as [pages [e|]]; [fr_leaf | fr_leaf].
Qed.

Lemma poll_after_pure (latest : option string) (d : Database) :
  snd (poll_after latest d) = d.
Proof.
  unfold poll_after.
  destruct (truthy_opt latest); [|reflexivity].
  destruct (fromisoformat (default EmptyString latest)); reflexivity.
Qed.

Lemma fetch_and_store_state (fetch_call : Py (list Message)) (now : string) :
  frames same_state fetch_call ->
  frames same_state (fetch_and_store fetch_call now).
Proof.
  intros Hf. unfold fetch_and_store.
  fr_try; [exact Hf | fr_leaf |].
  intros [|m msgs]; [fr_leaf|].
  intros d. unfold same_state.
  pose proof (upsert_messages_state now (m :: msgs) d) as H.
  destruct (upsert_messages now (m :: msgs) d) as [d' n]. exact H.
Qed.

(** [poll_fn] never writes the table [state]. *)
Lemma app_poll_fn_state (g : Google datetime) (now : string) :
  frames same_state (app_poll_fn g now).
Proof.
  unfold app_poll_fn, poll_fn.
  fr_bind; [fr_leaf|]. intros latest.
  fr_bind.
  { intros d. rewrite poll_after_pure. reflexivity. }
  intros after. apply fetch_and_store_state.
  intros d. apply (list_messages_frames g after 100 d).
Qed.

(** The [try] statement of the loop writes no slot of [state] but
    [last_poll_at]. *)
Lemma _loop_poll_state (g : Google datetime) (now now_iso : string) :
  frames (same_state_but "last_poll_at")
         (_loop_poll (app_poll_fn g now) now_iso).
Proof.
  unfold _loop_poll.
  fr_try; [|fr_leaf | intros; fr_leaf].
  fr_bind.
  - intros d. apply same_state_same_state_but. apply app_poll_fn_state.
  - intros _. fr_exec; intros d. apply set_state_same_state_but.
Qed.

Lemma poll_fn_eval (fetch : option datetime -> Py (list Message))
    (now : string) (d : Database) (after : option datetime) :
  fst (poll_after (latest_message_time d) d) = inr after ->
  poll_fn fetch now d = fetch_and_store (fetch after) now d.
Proof.
  intros H. unfold poll_fn, bind, query.
  pose proof (poll_after_pure (latest_message_time d) d) as Hp.
  destruct (poll_after (latest_message_time d) d) as [r d'].
  simpl in H, Hp. subst. reflexivity.
Qed.

Lemma load_credentials_ext (g g' : Google datetime) :
  stale g = stale g' -> refresh g = refresh g' ->
  load_credentials g = load_credentials g'.
Proof. unfold load_credentials. intros -> ->. reflexivity. Qed.

(** What [main.poll_fn] makes of the outcome of its one call of the
    fetcher. *)
Lemma fetch_and_store_eval (fetch_call : Py (list Message)) (now : string)
    (d : Database) :
  fetch_and_store fetch_call now d =
  match fetch_call d with
  | (inl e, d') =>
      if isinstance_RuntimeError e then (inr 0, d') else (inl e, d')
  | (inr [], d') => (inr 0, d')
  | (inr msgs, d') =>
      (inr (snd (upsert_messages now msgs d')),
       fst (upsert_messages now msgs d'))
  end.
Proof.
  unfold fetch_and_store, try_except.
  destruct (fetch_call d) as [[e | [|m msgs]] d']; try reflexivity.
  destruct (upsert_messages now (m :: msgs) d'). reflexivity.
Qed.

Lemma truthy_false (s : string) : truthy s = false <-> s = EmptyString.
Proof.
  unfold truthy. rewrite negb_false_iff. apply String.eqb_eq.
Qed.

(** C5, as amended.  [poll_fn] computes the lower bound from the table
    of messages alone and, unless the bound fails to parse, invokes the
    fetcher exactly once with it and makes the result of the poll of
    what that one invocation does: its [RuntimeError] ends the poll
    with a count of 0, any other exception is the exception of the
    poll, and the messages it returns, if any, are upserted.  The bound
    is absent when the table is empty, and also when the latest
    creation time, the greatest in the order of the column, is the
    empty string; it is the parsed latest creation time when that
    parses; and when a latest creation time that is not empty does not
    parse, the poll raises [ValueError] and the fetcher is not invoked.
    The fetcher of the application is [list_messages] with pages of
    100: it lists with the filter [createTime > "that time"], or with no
    filter when the bound is absent, and returns the messages of all
    pages, oldest first. *)
Theorem poll_fetches_after_latest
    (fetch : option datetime -> Py (list Message)) (now : string)
    (d : Database) :
  let invoking (after : option datetime) : (exn + nat) * Database :=
    match fetch after d with
    | (inl e, d') =>
        if isinstance_RuntimeError e then (inr 0, d') else (inl e, d')
    | (inr [], d') => (inr 0, d')
    | (inr msgs, d') =>
        (inr (snd (upsert_messages now msgs d')),
         fst (upsert_messages now msgs d'))
    end in
  (messages d = [] -> poll_fn fetch now d = invoking None) /\
  (forall ts : string,
     latest_message_time d = Some ts ->
     (exists r, r ∈ messages d /\ created_at r = ts /\
                forall r', r' ∈ messages d ->
                           String.leb (created_at r') ts = true) /\
     (ts = EmptyString -> poll_fn fetch now d = invoking None) /\
     (forall dt : datetime,
        ts <> EmptyString ->
        fromisoformat ts = Some dt ->
        poll_fn fetch now d = invoking (Some dt)) /\
     (ts <> EmptyString ->
      fromisoformat ts = None ->
      poll_fn fetch now d = (inl ValueError, d))) /\
  (forall (g : Google datetime) (after : option datetime) (page_size : Z)
          (d0 : Database),
     list_messages g after page_size d0 =
     match _get_service fromisoformat g d0 with
     | (inl e, d1) => (inl e, d1)
     | (inr _, d1) =>
         let filter :=
           match after with
           | Some dt => "createTime > " ++ dquote ++ strftime_utc dt ++ dquote
           | None => EmptyString
           end in
         match list_pages g filter (Z.min page_size 1000) with
         | (_, Some e) => (inl e, d1)
         | (pages, None) =>
             (inr (rev (concat (map (map _normalize) pages))), d1)
         end
     end) /\
  (forall g : Google datetime,
     app_poll_fn g now = poll_fn (fun after => list_messages g after 100) now)
  /\
  (forall d', messages d' = messages d ->
              latest_message_time d' = latest_message_time d).
Proof.
  intros invoking.
  assert (Hinv : forall after,
            fst (poll_after (latest_message_time d) d) = inr after ->
            poll_fn fetch now d = invoking after).
  { intros after H. rewrite (poll_fn_eval fetch now d after H).
    apply fetch_and_store_eval. }
  split; [|split; [|split; [|split]]].
  - intros Hempty. apply Hinv.
    unfold latest_message_time. rewrite Hempty. reflexivity.
  - intros ts Hlatest.
    split; [|split; [|split]].
    + pose proof (latest_message_time_spec d) as Hspec.
      rewrite Hlatest in Hspec. destruct Hspec as [[r [Hr Hts]] Hmax].
      exists r. repeat split; assumption.
    + intros ->. apply Hinv. rewrite Hlatest. reflexivity.
    + intros dt Hne Hparse. apply Hinv. rewrite Hlatest.
      unfold poll_after. cbn [truthy_opt from_option id].
      destruct (truthy ts) eqn:Ht.
      * rewrite Hparse. reflexivity.
      * apply truthy_false in Ht. contradiction.
    + intros Hne Hparse.
      unfold poll_fn, bind, query, poll_after. rewrite Hlatest.
      cbn [truthy_opt from_option id].
      destruct (truthy ts) eqn:Ht.
      * rewrite Hparse. reflexivity.
      * apply truthy_false in Ht. contradiction.
  - intros g after page_size d0.
    unfold list_messages, bind.
    destruct (_get_service fromisoformat g d0) as [[e | c] d1];
      [reflexivity|].
    destruct after as [dt|]; cbn [filter_str];
      match goal with
      | |- context [list_pages g ?f ?n] =>
          destruct (list_pages g f n) as [pages [e|]]
      end; reflexivity.
  - intros g. reflexivity.
  - intros d' Hsame. unfold latest_message_time. rewrite Hsame.
    reflexivity.
Qed.

Lemma step_read_marker (a a' : App) (ev : Event) :
  app_event ev ->
  step a ev = Some a' ->
  get_state "read_marker" (db a') =
  match ev with
  | EvMarkRead timestamp now => Some (py_or timestamp now)
  | _ => get_state "read_marker" (db a)
  end.
Proof.
  intros Happ Hstep.
  destruct ev as [now | ts now | now msgs | k v | now | pf iso | | ];
    simpl in Hstep.
  - injection Hstep as <-. reflexivity.
  - injection Hstep as <-. simpl. unfold get_state. simpl.
    apply lookup_insert_eq.
  - injection Hstep as <-. simpl. unfold get_state.
    rewrite upsert_messages_state. reflexivity.
  - injection Hstep as <-. reflexivity.
  - destruct (loop a); try discriminate.
    destruct (_loop_decide config now (poller a)) as [p i].
    injection Hstep as <-. reflexivity.
  - destruct (loop a); try discriminate.
    destruct Happ as [g [now ->]].
    pose proof (_loop_poll_state g now iso (db a) "read_marker") as Hframe.
    destruct (_loop_poll (app_poll_fn g now) iso (db a)) as [[e | u] d'];
      injection Hstep as <-; simpl in *; apply Hframe; discriminate.
  - destruct (loop a); try discriminate.
    injection Hstep as <-. reflexivity.
  - destruct (loop a); try discriminate;
      injection Hstep as <-; reflexivity.
Qed.

Lemma run_read_marker (evs : list Event) (a a' : App) :
  Forall app_event evs ->
  run evs a = Some a' ->
  get_state "read_marker" (db a') =
  foldl (fun m ev =>
           match ev with
           | EvMarkRead timestamp now => Some (py_or timestamp now)
           | _ => m
           end)
        (get_state "read_marker" (db a)) evs.
Proof.
  revert a. induction evs as [|ev evs IH]; intros a Happ Hrun; simpl in *.
  - injection Hrun as <-. reflexivity.
  - destruct (step a ev) as [a1|] eqn:E; [|discriminate].
    inversion Happ as [|? ? Hev Hevs]; subst.
    rewrite (IH a1 Hevs Hrun), (step_read_marker a a1 ev Hev E).
    destruct ev; reflexivity.
Qed.

Lemma foldl_no_mark (evs : list Event) (m : option string) :
  Forall (fun ev => is_mark_read ev = false) evs ->
  foldl (fun m ev =>
           match ev with
           | EvMarkRead timestamp now => Some (py_or timestamp now)
           | _ => m
           end) m evs = m.
Proof.
  revert m. induction evs as [|ev evs IH]; intros m Hno; simpl.
  - reflexivity.
  - inversion Hno as [|? ? Hev Hevs]; subst.
    rewrite (IH _ Hevs). destruct ev; try reflexivity. discriminate Hev.
Qed.

(** C7. On a new database the read marker is what the mark-read calls
    among the events made it: absent while there has been none, and
    after each the timestamp given or, without one, the wall clock.  No
    other event writes the slot: not a step of the loop, not [poll_fn],
    not [upsert_messages]. *)
Theorem read_marker_only_by_mark_read :
  (forall (evs : list Event) (a : App),
     Forall app_event evs ->
     run evs (App_init) = Some a ->
     get_state "read_marker" (db a) = last_mark_of evs /\
     (Forall (fun ev => is_mark_read ev = false) evs ->
      get_state "read_marker" (db a) = None)) /\
  (forall (a a' : App) (ev : Event),
     app_event ev ->
     step a ev = Some a' ->
     is_mark_read ev = false ->
     get_state "read_marker" (db a') = get_state "read_marker" (db a)) /\
  (forall (timestamp : option string) (now : string) (d : Database),
     get_state "read_marker" (fst (mark_read timestamp now d)) =
       Some (py_or timestamp now) /\
     snd (mark_read timestamp now d) = py_or timestamp now /\
     py_or None now = now) /\
  (forall (g : Google datetime) (now : string) (d : Database),
     get_state "read_marker" (snd (app_poll_fn g now d)) =
     get_state "read_marker" d) /\
  (forall (now : string) (msgs : list Message) (d : Database),
     get_state "read_marker" (fst (upsert_messages now msgs d)) =
     get_state "read_marker" d).
Proof.
  split; [|split; [|split; [|split]]].
  - intros evs a Happ Hrun.
    pose proof (run_read_marker evs App_init a Happ Hrun) as H.
    split; [exact H|].
    intros Hno. rewrite H. apply foldl_no_mark. exact Hno.
  - intros a a' ev Happ Hstep Hno.
    rewrite (step_read_marker a a' ev Happ Hstep).
    destruct ev; try reflexivity. discriminate Hno.
  - intros timestamp now d. repeat split.
    unfold mark_read, get_state. simpl. apply lookup_insert_eq.
  - intros g now d. unfold get_state.
    rewrite (app_poll_fn_state g now d). reflexivity.
  - intros now msgs d. unfold get_state.
    rewrite upsert_messages_state. reflexivity.
Qed.

(** C8, as the code has it.  The poll of an iteration never changes the
    poller, and it records [last_poll_at] exactly when [poll_fn] returns:
    when the fetch succeeds, after the fetched messages are upserted,
    and when the fetch raises [RuntimeError], the error of a sidecar not
    authenticated yet, which [poll_fn] turns into a count of 0.  On any
    other exception of the fetch neither [last_poll_at] nor the
    messages change, and the loop goes on to its sleep. *)
Theorem last_poll_recorded_when_poll_fn_returns
    (g : Google datetime) (now now_iso : string) (a : App)
    (interval : Z) (after : option datetime) :
  loop a = AwaitPoll interval ->
  fst (poll_after (latest_message_time (db a)) (db a)) = inr after ->
  exists a',
    step a (EvLoopPoll (app_poll_fn g now) now_iso) = Some a' /\
    poller a' = poller a /\
    match list_messages g after 100 (db a) with
    | (inr msgs, d) =>
        loop a' = AwaitSleep interval /\
        db a' = set_state "last_poll_at" now_iso
                  (fst (upsert_messages now msgs d)) /\
        get_state "last_poll_at" (db a') = Some now_iso
    | (inl e, d) =>
        if isinstance_RuntimeError e then
          loop a' = AwaitSleep interval /\
          db a' = set_state "last_poll_at" now_iso d /\
          get_state "last_poll_at" (db a') = Some now_iso
        else
          loop a' = (if isinstance_Exception e then AwaitSleep interval
                     else Finished e) /\
          db a' = d /\
          get_state "last_poll_at" (db a') =
            get_state "last_poll_at" (db a) /\
          messages (db a') = messages (db a)
    end.
Proof.
  intros Hloop Hafter. simpl. rewrite Hloop.
  unfold _loop_poll, try_except at 1, bind, exec.
  unfold app_poll_fn.
  rewrite (poll_fn_eval _ now (db a) after Hafter).
  unfold fetch_and_store, try_except.
  pose proof (list_messages_frames g after 100 (db a)) as [Hst Hmsgs].
  destruct (list_messages g after 100 (db a)) as [[e | msgs] d];
    simpl in Hst, Hmsgs.
  - destruct e; simpl.
    + eexists. split; [reflexivity|]. split; [reflexivity|].
      simpl. repeat split. unfold get_state. simpl. apply lookup_insert_eq.
    + eexists. split; [reflexivity|]. split; [reflexivity|].
      simpl. repeat split; [|exact Hmsgs]. unfold get_state. congruence.
    + eexists. split; [reflexivity|]. split; [reflexivity|].
      simpl. repeat split; [|exact Hmsgs]. unfold get_state. congruence.
    + eexists. split; [reflexivity|]. split; [reflexivity|].
      simpl. repeat split; [|exact Hmsgs]. unfold get_state. congruence.
  - destruct msgs as [|m msgs].
    + simpl. eexists. split; [reflexivity|]. split; [reflexivity|].
      simpl. repeat split. unfold get_state. simpl. apply lookup_insert_eq.
    + destruct (upsert_messages now (m :: msgs) d) as [d' n] eqn:E.
      simpl. eexists. split; [reflexivity|]. split; [reflexivity|].
      simpl. repeat split. unfold get_state. simpl. apply lookup_insert_eq.
Qed.

End FetcherFacts.

(** C8, as stated, fails: on a new database the sidecar holds no
    refresh token, the fetch raises [RuntimeError], and the iteration
    still writes [last_poll_at], which was absent before. *)
Lemma unauthenticated_poll_recorded :
  let g := google_serving [] in
  let a := {| poller := Poller_init;
              loop := AwaitPoll 14400;
              db := Database_init |} in
  let now_iso := "2024-05-01T10:00:00+00:00" in
  fst (list_messages iso_fromisoformat iso_strftime_utc g None 100 (db a))
    = inl RuntimeError /\
  get_state "last_poll_at" (db a) = None /\
  exists a',
    step default_config a
      (EvLoopPoll (app_poll_fn iso_fromisoformat iso_strftime_utc g
                     "2024-05-01T10:00:00+00:00") now_iso) = Some a' /\
    loop a' = AwaitSleep 14400 /\
    _mode (poller a') = _mode (poller a) /\
    get_state "last_poll_at" (db a') = Some now_iso /\
    get_state "last_poll_at" (db a') <> get_state "last_poll_at" (db a).
Proof.
  simpl. split; [reflexivity|]. split; [reflexivity|].
  eexists. split; [reflexivity|]. simpl.
  split; [reflexivity|]. split; [reflexivity|].
  unfold get_state. simpl. rewrite lookup_insert_eq.
  split; [reflexivity|]. rewrite lookup_empty. discriminate.
Qed.

(** C5 as the specification words it does not hold of the code.  A
    message that came without [createTime] is stored with the empty
    creation time; with nothing else stored, the latest creation time
    is the empty string and the poll invokes the fetcher with no bound,
    although the store is not empty.  And when the latest creation time
    is a string that does not parse, the poll raises before it invokes
    the fetcher.  The fetchers here raise to tell how they are
    invoked. *)
Lemma poll_bound_absent_on_stored_messages :
  let raw := {| raw_name := Some "spaces/S/messages/a";
                raw_sender := None;
                raw_text := Some "hello";
                raw_createTime := None |} in
  let d := fst (upsert_messages "2024-05-01T10:00:30+00:00"
                  [_normalize raw] Database_init) in
  let fetch : option string -> Py (list Message) :=
    fun after =>
      match after with
      | Some _ => ret []
      | None => raise (OtherException "no bound")
      end in
  let d2 := {| messages := [{| row_id := "spaces/S/messages/a";
                               sender_name := "Ann";
                               sender_email := EmptyString;
                               text := "hello";
                               created_at := "yesterday";
                               fetched_at := "t" |}];
               state := ∅; auth := ∅; total_changes := 1 |} in
  let reject : string -> option string := fun _ => None in
  let fetch2 : option string -> Py (list Message) :=
    fun _ => raise (OtherException "invoked") in
  let now := "2024-05-01T10:06:00+00:00" in
  message_count d = 1 /\
  latest_message_time d = Some EmptyString /\
  poll_fn iso_fromisoformat fetch now d =
    (inl (OtherException "no bound"), d) /\
  latest_message_time d2 = Some "yesterday" /\
  poll_fn reject fetch2 now d2 = (inl ValueError, d2).
Proof.
  intros raw d fetch d2 reject fetch2 now.
  repeat split; vm_compute; reflexivity.
Qed.

(** C6 as the specification words it does not hold of the code when
    the maximum is the latest instant.  Two [createTime] values of the
    same second, one with no fraction and one half a second later: the
    later one is the smaller string, because [.] comes before [Z], and
    [latest_message_time] returns the earlier one whichever message is
    stored first. *)
Lemma latest_message_time_not_latest_instant :
  let T1 := "2024-05-01T10:00:00Z" in
  let T2 := "2024-05-01T10:00:00.500Z" in
  let m1 := {| msg_id := "spaces/S/messages/a";
               msg_sender_name := "Ann";
               msg_sender_email := None;
               msg_text := "first";
               msg_created_at := T1 |} in
  let m2 := {| msg_id := "spaces/S/messages/b";
               msg_sender_name := "Bob";
               msg_sender_email := None;
               msg_text := "second";
               msg_created_at := T2 |} in
  utc_instant T1 = Some ("2024-05-01T10:00:00", 0%Q) /\
  utc_instant T2 = Some ("2024-05-01T10:00:00", (500 # 1000)%Q) /\
  earlier T1 T2 = true /\
  msg_id m1 <> msg_id m2 /\
  latest_message_time
    (fst (upsert_messages "t2" [m2]
            (fst (upsert_messages "t1" [m1] Database_init)))) = Some T1 /\
  latest_message_time
    (fst (upsert_messages "t2" [m1]
            (fst (upsert_messages "t1" [m2] Database_init)))) = Some T1 /\
  latest_message_time
    (fst (upsert_messages "t1" [m1; m2] Database_init)) = Some T1 /\
  Some T1 <> Some T2.
Proof.
  intros T1 T2 m1 m2.
  split; [vm_compute; reflexivity|].
  split; [vm_compute; reflexivity|].
  split; [vm_compute; reflexivity|].
  split; [discriminate|].
  split; [vm_compute; reflexivity|].
  split; [vm_compute; reflexivity|].
  split; [vm_compute; reflexivity|].
  discriminate.
Qed.

(** C2 as the specification words it does not hold of the code.  With
    the default timeout of 600 seconds, take a touch at the reading 0.1
    and an iteration at the reading 600.1, each the float nearest to
    the decimal.  The two readings are more than 600 seconds apart, but
    the subtraction of the two floats gives 600.0, which is not more
    than 600: the iteration leaves the mode ACTIVE and sleeps
    [POLL_ACTIVE_INTERVAL]. *)
Lemma decay_missed_by_rounding :
  let t0 := (3602879701896397 # 36028797018963968)%Q in
  let now := (5278535422627021 # 8796093022208)%Q in
  let evs := [EvTouch t0] in
  let a := {| poller := {| _mode := ACTIVE; _last_skill_touch := t0 |};
              loop := AtTop;
              db := Database_init |} in
  is_binary64 t0 = true /\
  is_binary64 now = true /\
  Forall monotonic_positive evs /\
  run default_config evs App_init = Some a /\
  _mode (poller a) = ACTIVE /\
  loop a = AtTop /\
  (inject_Z (POLL_DECAY_TIMEOUT default_config)
   < now - last_touch_of evs)%Q /\
  match b64_sub now (last_touch_of evs) with
  | Finite r => (r == 600)%Q
  | _ => False
  end /\
  step default_config a (EvLoopDecide now) =
    Some {| poller := poller a; loop := AwaitPoll 30; db := db a |} /\
  exists a2,
    tick default_config now (ret 0%nat) "2024-05-01T10:10:00+00:00" a =
      Some (a2, POLL_ACTIVE_INTERVAL default_config) /\
    _mode (poller a2) = ACTIVE.
Proof.
  intros t0 now evs a.
  split; [vm_compute; reflexivity|].
  split; [vm_compute; reflexivity|].
  split; [constructor; [reflexivity | constructor]|].
  split; [reflexivity|]. split; [reflexivity|]. split; [reflexivity|].
  split; [reflexivity|].
  split; [vm_compute; reflexivity|].
  split; [vm_compute; reflexivity|].
  eexists. split; vm_compute; reflexivity.
Qed.

(** * The statements at concrete inputs *)

(** A touch at reading 1000, a decayed iteration at 1700, and a new
    touch at 1900: the mode is ACTIVE again. *)
Lemma touch_always_active_witness :
  let evs := [EvTouch 1000; EvLoopDecide 1700] in
  exists a,
    run default_config evs App_init = Some a /\
    _mode (poller a) = IDLE /\
    exists a',
      run default_config (evs ++ [EvTouch 1900]) App_init = Some a' /\
      _mode (poller a') = ACTIVE /\
      _last_skill_touch (poller a') = 1900%Q.
Proof.
  intros evs. eexists. split; [reflexivity|]. split; [reflexivity|].
  destruct (touch_always_active default_config evs App_init _ 1900%Q eq_refl)
    as [a' [H1 [H2 [_ [H3 _]]]]].
  exists a'. split; [exact H1|]. split; [exact H2 | exact H3].
Defined.

(** The scenario of a touch followed by 601 seconds of silence, with
    the default options. *)
Lemma decay_to_idle_witness :
  let evs := [EvTouch 1000] in
  let a := {| poller := {| _mode := ACTIVE; _last_skill_touch := 1000 |};
              loop := AtTop;
              db := Database_init |} in
  Forall monotonic_positive evs /\
  run default_config evs App_init = Some a /\
  _mode (poller a) = ACTIVE /\
  loop a = AtTop /\
  (inject_Z (POLL_DECAY_TIMEOUT default_config) + 1
   <= 1601 - last_touch_of evs)%Q /\
  f64_gt_int (b64_sub 1601 (last_touch_of evs))
             (POLL_DECAY_TIMEOUT default_config) = true /\
  exists a1,
    step default_config a (EvLoopDecide 1601) = Some a1 /\
    _mode (poller a1) = IDLE /\
    loop a1 = AwaitPoll 14400.
Proof.
  intros evs a.
  assert (H1 : Forall monotonic_positive evs).
  { constructor; [reflexivity | constructor]. }
  assert (H4 : (inject_Z (POLL_DECAY_TIMEOUT default_config) + 1
                <= 1601 - last_touch_of evs)%Q).
  { intros H. discriminate H. }
  assert (H5 : f64_gt_int (b64_sub 1601 (last_touch_of evs))
                          (POLL_DECAY_TIMEOUT default_config) = true).
  { apply (proj1 (proj2 (decay_to_idle default_config)) 1601%Q
             (last_touch_of evs)).
    - intros H. discriminate H.
    - intros H. discriminate H.
    - exact H4. }
  split; [exact H1|]. split; [reflexivity|]. split; [reflexivity|].
  split; [reflexivity|]. split; [exact H4|]. split; [exact H5|].
  exact (proj1 (proj1 (decay_to_idle default_config)
                  evs a 1601%Q H1 eq_refl eq_refl eq_refl H5)).
Defined.

(** A poll that raises an HTTP error while the loop waits for it. *)
Lemma poll_failure_swallowed_witness :
  let a := {| poller := touch 1000 Poller_init;
              loop := AwaitPoll 30;
              db := Database_init |} in
  let poll_fn : Py nat := raise (OtherException "HttpError") in
  loop a = AwaitPoll 30 /\
  poll_fn (db a) = (inl (OtherException "HttpError"), Database_init) /\
  isinstance_Exception (OtherException "HttpError") = true /\
  step default_config a (EvLoopPoll poll_fn "2024-05-01T10:00:00+00:00") =
    Some {| poller := poller a; loop := AwaitSleep 30; db := Database_init |}.
Proof.
  intros a poll_fn.
  split; [reflexivity|]. split; [reflexivity|]. split; [reflexivity|].
  exact (proj1 (poll_failure_swallowed default_config)
           a 30%Z poll_fn "2024-05-01T10:00:00+00:00"
           (OtherException "HttpError") Database_init
           eq_refl eq_refl eq_refl).
Defined.

(** One touch at a positive reading. *)
Lemma active_implies_touched_witness :
  let evs := [EvTouch 1000] in
  let a := {| poller := {| _mode := ACTIVE; _last_skill_touch := 1000 |};
              loop := AtTop;
              db := Database_init |} in
  Forall monotonic_positive evs /\
  run default_config evs App_init = Some a /\
  _mode (poller a) = ACTIVE /\
  (0 < _last_skill_touch (poller a))%Q.
Proof.
  intros evs a.
  assert (H1 : Forall monotonic_positive evs).
  { constructor; [reflexivity | constructor]. }
  split; [exact H1|]. split; [reflexivity|]. split; [reflexivity|].
  exact (proj1 (proj2 (active_implies_touched default_config)
                  evs a H1 eq_refl eq_refl)).
Defined.

(** Two messages an hour apart, stored in either order. *)
Lemma latest_message_time_is_max_witness :
  let m1 := {| msg_id := "spaces/S/messages/a";
               msg_sender_name := "Ann";
               msg_sender_email := None;
               msg_text := "first";
               msg_created_at := "2024-05-01T10:00:00.000000Z" |} in
  let m2 := {| msg_id := "spaces/S/messages/b";
               msg_sender_name := "Bob";
               msg_sender_email := Some "bob@example.com";
               msg_text := "second";
               msg_created_at := "2024-05-01T11:00:00.000000Z" |} in
  messages Database_init = [] /\
  msg_id m1 <> msg_id m2 /\
  String.ltb (msg_created_at m1) (msg_created_at m2) = true /\
  latest_message_time
    (fst (upsert_messages "t2" [m1]
            (fst (upsert_messages "t1" [m2] Database_init)))) =
    Some "2024-05-01T11:00:00.000000Z".
Proof.
  intros m1 m2.
  assert (Hne : msg_id m1 <> msg_id m2) by discriminate.
  split; [reflexivity|]. split; [exact Hne|]. split; [reflexivity|].
  exact (proj1 (proj2 (proj2 (proj2 latest_message_time_is_max)
                         Database_init "t1" "t2" m1 m2
                         eq_refl Hne eq_refl))).
Defined.

(** A table of 51 rows and no marker: 50 returned, 51 counted. *)
Lemma unread_without_marker_witness :
  let rows :=
    map (fun n => {| row_id := String (ascii_of_nat (48 + n)) EmptyString;
                     sender_name := "Ann";
                     sender_email := EmptyString;
                     text := "hello";
                     created_at := String (ascii_of_nat (48 + n)) EmptyString;
                     fetched_at := "2024-05-01T10:00:00+00:00" |})
        (seq 0 51) in
  let d := {| messages := rows; state := ∅; auth := ∅;
              total_changes := 51 |} in
  get_state "read_marker" d = None /\
  length (get_unread_messages (fun _ _ => true) d) = 50 /\
  unread_count d = 51.
Proof.
  intros rows d.
  assert (H : get_state "read_marker" d = None) by reflexivity.
  destruct (unread_without_marker (fun _ _ => true) d H)
    as [_ [_ [_ [Hcount Hmany]]]].
  split; [exact H|]. split; [|exact Hcount].
  apply Hmany. unfold d, rows. simpl. lia.
Defined.

(** A stored message, and a fetcher that tells the bound it is invoked
    with: it returns a new message for the stored creation time and
    raises for every other bound. *)
Lemma poll_fetches_after_latest_witness :
  let ts := "2024-05-01T10:00:00.000000Z" in
  let r := {| row_id := "spaces/S/messages/a";
              sender_name := "Ann";
              sender_email := EmptyString;
              text := "hello";
              created_at := ts;
              fetched_at := "2024-05-01T10:00:30+00:00" |} in
  let d := {| messages := [r]; state := ∅; auth := ∅; total_changes := 1 |} in
  let m := {| msg_id := "spaces/S/messages/b";
              msg_sender_name := "Bob";
              msg_sender_email := None;
              msg_text := "hi";
              msg_created_at := "2024-05-01T10:05:00.000000Z" |} in
  let fetch : option string -> Py (list Message) :=
    fun after =>
      match after with
      | Some t => if String.eqb t ts then ret [m]
                  else raise (OtherException "another bound")
      | None => raise (OtherException "no bound")
      end in
  let now := "2024-05-01T10:06:00+00:00" in
  latest_message_time d = Some ts /\
  ts <> EmptyString /\
  iso_fromisoformat ts = Some ts /\
  messages (snd (poll_fn iso_fromisoformat fetch now d)) = [r; row_of now m] /\
  exists n, fst (poll_fn iso_fromisoformat fetch now d) = inr n.
Proof.
  intros ts r d m fetch now.
  assert (Hne : ts <> EmptyString) by discriminate.
  split; [reflexivity|]. split; [exact Hne|]. split; [reflexivity|].
  rewrite (proj1 (proj2 (proj2 (proj1 (proj2
             (poll_fetches_after_latest string iso_fromisoformat
                iso_strftime_utc fetch now d))
             ts eq_refl))) ts Hne eq_refl).
  split; [reflexivity|]. eexists. reflexivity.
Defined.

(** A touch, a mark-read without timestamp and a whole iteration of
    the loop: the marker is the wall clock of the mark-read. *)
Lemma read_marker_only_by_mark_read_witness :
  let poll := app_poll_fn iso_fromisoformat iso_strftime_utc
                (google_serving []) "2024-05-01T10:02:00+00:00" in
  let evs := [EvTouch 1000;
              EvMarkRead None "2024-05-01T10:01:00+00:00";
              EvLoopDecide 1001;
              EvLoopPoll poll "2024-05-01T10:02:01+00:00";
              EvLoopWake] in
  Forall (app_event iso_fromisoformat iso_strftime_utc) evs /\
  exists a,
    run default_config evs App_init = Some a /\
    get_state "read_marker" (db a) = Some "2024-05-01T10:01:00+00:00".
Proof.
  intros poll evs.
  assert (H : Forall (app_event iso_fromisoformat iso_strftime_utc) evs).
  { repeat constructor. eexists. eexists. reflexivity. }
  split; [exact H|].
  eexists. split; [reflexivity|].
  exact (proj1 (proj1 (read_marker_only_by_mark_read string iso_fromisoformat
                         iso_strftime_utc default_config)
                  evs _ H eq_refl)).
Defined.

(** An authenticated sidecar whose fetch returns one new message. *)
Lemma last_poll_recorded_when_poll_fn_returns_witness :
  let raw := {| raw_name := Some "spaces/S/messages/a";
                raw_sender := Some {| displayName := Some "Ann";
                                      email := None |};
                raw_text := Some "hello";
                raw_createTime := Some "2024-05-01T10:00:00.000000Z" |} in
  let g := google_serving [[raw]] in
  let a := {| poller := Poller_init;
              loop := AwaitPoll 14400;
              db := set_auth "refresh_token" "1//token" Database_init |} in
  let now_iso := "2024-05-01T10:02:01+00:00" in
  loop a = AwaitPoll 14400 /\
  fst (poll_after iso_fromisoformat (latest_message_time (db a)) (db a))
    = inr None /\
  exists a',
    step default_config a
      (EvLoopPoll (app_poll_fn iso_fromisoformat iso_strftime_utc g
                     "2024-05-01T10:02:00+00:00") now_iso) = Some a' /\
    poller a' = poller a /\
    loop a' = AwaitSleep 14400 /\
    get_state "last_poll_at" (db a') = Some now_iso.
Proof.
  intros raw g a now_iso.
  split; [reflexivity|]. split; [reflexivity|].
  destruct (last_poll_recorded_when_poll_fn_returns string iso_fromisoformat
              iso_strftime_utc default_config g
              "2024-05-01T10:02:00+00:00" now_iso a 14400%Z None
              eq_refl eq_refl) as [a' [Hstep [Hpoller Hcase]]].
  exists a'. split; [exact Hstep|]. split; [exact Hpoller|].
  vm_compute in Hcase. destruct Hcase as [Hloop [_ Hlast]].
  split; [exact Hloop | exact Hlast].
Defined.

(** * Further properties of the store *)

Lemma string_leb_not_ltb (a b : string) :
  String.leb a b = true -> String.ltb b a = false.
Proof.
  unfold String.ltb, String.leb. rewrite (String.compare_antisym b a).
  destruct (String.compare a b); simpl; congruence.
Qed.

(** What the loop of [upsert_messages] does to the connection and to
    its counter, for any starting value of the counter. *)
Lemma upsert_loop_spec (now : string) (msgs : list Message)
    (d : Database) (n : nat) :
  exists added,
    messages (fst (upsert_loop now msgs d n)) = (messages d ++ added)%list /\
    total_changes (fst (upsert_loop now msgs d n)) =
      total_changes d + length added /\
    Forall (fun row => exists m, m ∈ msgs /\ row = row_of now m) added /\
    (forall m, m ∈ msgs ->
               has_id (msg_id m)
                 (messages (fst (upsert_loop now msgs d n))) = true) /\
    n + length added <= snd (upsert_loop now msgs d n).
Proof.
  revert d n. induction msgs as [|m msgs IH]; intros d n.
  - exists []. rewrite app_nil_r. simpl.
    repeat split; try lia; [constructor|].
    intros m Hm. inversion Hm.
  - cbn [upsert_loop].
    remember (insert_or_ignore (row_of now m) d) as d1 eqn:Hd1.
    destruct (IH d1 (n + total_changes d1))
      as [added [Hmsgs [Htc [Hfrom [Hin Hn]]]]].
    assert (Hlater : Forall (fun row => exists m0, m0 ∈ m :: msgs /\
                                                   row = row_of now m0) added).
    { eapply Forall_impl; [exact Hfrom|].
      intros row [m0 [H0 ->]]. exists m0.
      split; [apply list_elem_of_further; exact H0 | reflexivity]. }
    destruct (has_id (row_id (row_of now m)) (messages d)) eqn:E.
    + rewrite (insert_or_ignore_present _ _ E) in Hd1. subst d1.
      exists added. repeat split; try assumption; [|lia].
      intros m0 Hm0. apply elem_of_cons in Hm0. destruct Hm0 as [-> | Hm0].
      * apply has_id_true. rewrite Hmsgs, map_app, elem_of_app. left.
        apply has_id_true. exact E.
      * apply Hin. exact Hm0.
    + destruct (insert_or_ignore_absent (row_of now m) d E) as [H1 H2].
      rewrite <- Hd1 in H1, H2.
      exists (row_of now m :: added).
      rewrite Hmsgs, H1, <- app_assoc, Htc. rewrite H2 in Hn |- *. simpl.
      repeat split; try lia.
      * constructor; [|exact Hlater].
        exists m. split; [apply list_elem_of_here | reflexivity].
      * intros m0 Hm0. apply elem_of_cons in Hm0.
        destruct Hm0 as [-> | Hm0].
        -- apply has_id_true. rewrite map_app, elem_of_app. right.
           simpl. apply list_elem_of_here.
        -- specialize (Hin m0 Hm0).
           rewrite Hmsgs, H1, <- app_assoc in Hin. exact Hin.
Qed.

(** When every identity of the batch is stored, no statement changes
    anything and every one adds the same [total_changes]. *)
Lemma upsert_loop_all_present (now : string) (msgs : list Message)
    (d : Database) (n : nat) :
  (forall m, m ∈ msgs -> has_id (msg_id m) (messages d) = true) ->
  upsert_loop now msgs d n = (d, n + length msgs * total_changes d).
Proof.
  revert n. induction msgs as [|m msgs IH]; intros n Hall; simpl.
  - f_equal. lia.
  - rewrite insert_or_ignore_present
      by (apply (Hall m); apply list_elem_of_here).
    rewrite IH.
    + f_equal. lia.
    + intros m0 Hm0. apply Hall. apply list_elem_of_further. exact Hm0.
Qed.

(** X1. [upsert_messages] appends rows built from the batch and touches
    nothing else: the rows stored before stay where they were, the
    identities stay pairwise distinct, every identity of the batch is
    stored afterwards, the tables [state] and [auth] are unchanged and
    [total_changes] grows by the number of rows added. *)
Theorem upsert_messages_table (now : string) (msgs : list Message)
    (d : Database) :
  NoDup (map row_id (messages d)) ->
  let d' := fst (upsert_messages now msgs d) in
  NoDup (map row_id (messages d')) /\
  (forall m, m ∈ msgs -> has_id (msg_id m) (messages d') = true) /\
  state d' = state d /\
  auth d' = auth d /\
  exists added,
    messages d' = (messages d ++ added)%list /\
    total_changes d' = total_changes d + length added /\
    Forall (fun row => exists m, m ∈ msgs /\ row = row_of now m) added.
Proof.
  intros Hnd d'. unfold d', upsert_messages.
  destruct (upsert_loop_spec now msgs d 0)
    as [added [Hmsgs [Htc [Hfrom [Hin _]]]]].
  destruct (upsert_loop_tables now msgs d 0) as [Hst Hau].
  split; [apply upsert_loop_NoDup; exact Hnd|].
  split; [exact Hin|]. split; [exact Hst|]. split; [exact Hau|].
  exists added. repeat split; assumption.
Qed.

(** X2. Upserting a batch a second time changes nothing at all in the
    connection, and the second call returns the number of messages of
    the batch times [total_changes]. *)
Theorem upsert_messages_again (now now' : string) (msgs : list Message)
    (d : Database) :
  let d1 := fst (upsert_messages now msgs d) in
  upsert_messages now' msgs d1 = (d1, length msgs * total_changes d1).
Proof.
  intros d1. unfold upsert_messages at 1.
  rewrite upsert_loop_all_present; [reflexivity|].
  intros m Hm. unfold d1, upsert_messages.
  destruct (upsert_loop_spec now msgs d 0) as [added [_ [_ [_ [Hin _]]]]].
  apply Hin. exact Hm.
Qed.

(** X3. The count [upsert_messages] returns is never below the number
    of rows it added, and when it returns 0 the connection is exactly
    as it was. *)
Theorem upsert_messages_count_bounds (now : string) (msgs : list Message)
    (d : Database) :
  let r := upsert_messages now msgs d in
  length (messages (fst r)) - length (messages d) <= snd r /\
  (snd r = 0 -> fst r = d).
Proof.
  intros r. unfold r, upsert_messages.
  destruct (upsert_loop_spec now msgs d 0)
    as [added [Hmsgs [Htc [_ [_ Hn]]]]].
  destruct (upsert_loop_tables now msgs d 0) as [Hst Hau].
  split.
  - rewrite Hmsgs, length_app. lia.
  - intros H0. rewrite H0 in Hn.
    assert (added = []) by (destruct added; [reflexivity | simpl in Hn; lia]).
    subst added. rewrite app_nil_r in Hmsgs. simpl in Htc.
    destruct (fst (upsert_loop now msgs d 0)) as [ms st au tc].
    destruct d as [ms0 st0 au0 tc0]. simpl in *. subst.
    f_equal. lia.
Qed.

Lemma sql_limit_prefix {A : Type} (limit : Z) (rows : list A) :
  exists rest, (sql_limit limit rows ++ rest)%list = rows.
Proof.
  unfold sql_limit. destruct (limit <? 0)%Z.
  - exists []. apply app_nil_r.
  - exists (drop (Z.to_nat limit) rows). apply take_drop.
Qed.

Lemma sql_limit_length {A : Type} (limit : Z) (rows : list A) :
  (0 <= limit)%Z ->
  length (sql_limit limit rows) = Nat.min (Z.to_nat limit) (length rows).
Proof.
  intros H. unfold sql_limit.
  destruct (Z.ltb_spec limit 0) as [H' | _]; [lia|].
  apply length_take.
Qed.

(** X4. [get_messages] returns stored rows only, in ascending order of
    [created_at], each one passing the filters that were given (an
    empty [since] or [sender] is no filter), and at most [limit] of
    them; with a negative [limit] it returns every stored row that
    passes. *)
Theorem get_messages_result (sql_like : string -> string -> bool)
    (since : option string) (limit : Z) (sender : option string)
    (d : Database) :
  let passes (r : Row) :=
    (forall s, since = Some s -> truthy s = true ->
               String.ltb s (created_at r) = true) /\
    (forall s, sender = Some s -> truthy s = true ->
               sql_like (sender_name r) ("%" ++ s ++ "%") = true) in
  let res := get_messages sql_like since limit sender d in
  StronglySorted created_le res /\
  (forall r, r ∈ res -> r ∈ messages d /\ passes r) /\
  ((0 <= limit)%Z -> length res <= Z.to_nat limit) /\
  ((limit < 0)%Z -> forall r, r ∈ messages d -> passes r -> r ∈ res) /\
  get_messages sql_like (Some EmptyString) limit sender d =
    get_messages sql_like None limit sender d /\
  get_messages sql_like since limit (Some EmptyString) d =
    get_messages sql_like since limit None d.
Proof.
  intros passes res. unfold res, get_messages.
  set (keep := fun r : Row =>
         match since with
         | Some s => if truthy s then String.ltb s (created_at r) else true
         | None => true
         end &&
         match sender with
         | Some s =>
             if truthy s then sql_like (sender_name r) ("%" ++ s ++ "%")
             else true
         | None => true
         end).
  assert (Hkeep : forall r, keep r = true <-> passes r).
  { intros r. unfold keep, passes. rewrite andb_true_iff.
    split.
    - intros [H1 H2]. split; intros s -> Ht; rewrite Ht in *; assumption.
    - intros [H1 H2]. split.
      + destruct since as [s|]; [|reflexivity].
        destruct (truthy s) eqn:Ht; [|reflexivity]. apply (H1 s eq_refl Ht).
      + destruct sender as [s|]; [|reflexivity].
        destruct (truthy s) eqn:Ht; [|reflexivity]. apply (H2 s eq_refl Ht). }
  set (sorted := order_by_created_at_asc (List.filter keep (messages d))).
  destruct (sql_limit_prefix limit sorted) as [rest Hrest].
  pose proof (order_by_created_at_asc_sorted (List.filter keep (messages d)))
    as Hsorted.
  fold sorted in Hsorted.
  assert (Hin : forall r, r ∈ sorted <-> r ∈ messages d /\ passes r).
  { intros r. unfold sorted.
    rewrite (order_by_created_at_asc_perm (List.filter keep (messages d))).
    rewrite !list_elem_of_In, filter_In, Hkeep. reflexivity. }
  split.
  { rewrite <- Hrest in Hsorted.
    exact (StronglySorted_app_1_l _ _ _ Hsorted). }
  split.
  { intros r Hr. apply Hin. rewrite <- Hrest. apply elem_of_app. left.
    exact Hr. }
  split.
  { intros Hpos. rewrite sql_limit_length by exact Hpos. lia. }
  split.
  { intros Hneg r Hr Hp. unfold sql_limit.
    destruct (Z.ltb_spec limit 0) as [_ | H']; [|lia].
    apply Hin. split; assumption. }
  split; reflexivity.
Qed.

Lemma filter_since (m : string) (rows : list Row) :
  truthy m = true ->
  List.filter (fun r => (if truthy m then String.ltb m (created_at r)
                         else true) && true) rows =
  later_than m rows.
Proof.
  intros Ht. unfold later_than. apply List.filter_ext.
  intros r. rewrite Ht. apply andb_true_r.
Qed.

Lemma get_unread_messages_marker (sql_like : string -> string -> bool)
    (d : Database) (m : string) :
  get_state "read_marker" d = Some m ->
  truthy m = true ->
  get_unread_messages sql_like d =
  take 500 (order_by_created_at_asc (later_than m (messages d))).
Proof.
  intros Hm Ht. unfold get_unread_messages. rewrite Hm. simpl.
  rewrite Ht. unfold get_messages.
  rewrite (filter_since m (messages d) Ht). reflexivity.
Qed.

Lemma unread_count_marker (d : Database) (m : string) :
  get_state "read_marker" d = Some m ->
  truthy m = true ->
  unread_count d = length (later_than m (messages d)).
Proof. intros Hm Ht. unfold unread_count. rewrite Hm, Ht. reflexivity. Qed.

Lemma get_unread_messages_length (sql_like : string -> string -> bool)
    (d : Database) (m : string) :
  get_state "read_marker" d = Some m ->
  truthy m = true ->
  length (get_unread_messages sql_like d) = Nat.min 500 (unread_count d).
Proof.
  intros Hm Ht.
  rewrite (get_unread_messages_marker sql_like d m Hm Ht), length_take.
  rewrite (Permutation_length
             (order_by_created_at_asc_perm (later_than m (messages d)))).
  rewrite (unread_count_marker d m Hm Ht). reflexivity.
Qed.

(** X5. With a read marker set, [unread_count] is the number of stored
    rows created after the marker, and [get_unread_messages] returns
    the first 500 of them in ascending order of [created_at], all of
    them when there are fewer: the rows returned, followed by the rows
    left out, are the rows created after the marker in ascending order,
    so that no row left out comes before a row returned. *)
Theorem unread_with_marker (sql_like : string -> string -> bool)
    (d : Database) (m : string) :
  get_state "read_marker" d = Some m ->
  truthy m = true ->
  let unread := get_unread_messages sql_like d in
  unread_count d = length (later_than m (messages d)) /\
  length unread = Nat.min 500 (unread_count d) /\
  StronglySorted created_le unread /\
  (forall r, r ∈ unread ->
             r ∈ messages d /\ String.ltb m (created_at r) = true) /\
  (unread_count d <= 500 -> unread ≡ₚ later_than m (messages d)) /\
  (exists rest,
     (unread ++ rest)%list ≡ₚ later_than m (messages d) /\
     StronglySorted created_le (unread ++ rest)%list /\
     (forall r r', r ∈ unread -> r' ∈ rest -> created_le r r') /\
     (length unread < 500 -> rest = [])).
Proof.
  intros Hm Ht unread.
  assert (E : unread =
              take 500 (order_by_created_at_asc (later_than m (messages d))))
    by (apply get_unread_messages_marker; assumption).
  assert (Hcount : unread_count d = length (later_than m (messages d)))
    by (apply unread_count_marker; assumption).
  pose proof (order_by_created_at_asc_perm (later_than m (messages d)))
    as Hperm.
  pose proof (order_by_created_at_asc_sorted (later_than m (messages d)))
    as Hsorted.
  split; [exact Hcount|].
  split.
  { apply (get_unread_messages_length sql_like d m Hm Ht). }
  split.
  { rewrite <- (take_drop 500) in Hsorted. rewrite <- E in Hsorted.
    exact (StronglySorted_app_1_l _ _ _ Hsorted). }
  split.
  { intros r Hr. rewrite E in Hr.
    assert (Hr' : r ∈ later_than m (messages d)).
    { rewrite <- Hperm, <- (take_drop 500). apply elem_of_app. left.
      exact Hr. }
    unfold later_than in Hr'.
    rewrite list_elem_of_In, filter_In in Hr'.
    rewrite list_elem_of_In. exact Hr'. }
  split.
  { intros Hfew. rewrite E, take_ge; [exact Hperm|].
    rewrite (Permutation_length Hperm), <- Hcount. exact Hfew. }
  exists (drop 500 (order_by_created_at_asc (later_than m (messages d)))).
  rewrite E, take_drop.
  split; [exact Hperm|]. split; [exact Hsorted|]. split.
  - intros r r' Hr Hr'. rewrite <- (take_drop 500) in Hsorted.
    exact (StronglySorted_app_1_elem_of _ _ _ r r' Hsorted Hr Hr').
  - intros Hshort. rewrite length_take in Hshort.
    apply drop_ge. lia.
Qed.

Lemma later_than_nil (m : string) (rows : list Row) :
  (forall r, r ∈ rows -> String.leb (created_at r) m = true) ->
  later_than m rows = [].
Proof.
  intros Hall. unfold later_than.
  induction rows as [|r rows IH]; simpl; [reflexivity|].
  rewrite (string_leb_not_ltb (created_at r) m)
    by (apply Hall; apply list_elem_of_here).
  apply IH. intros r' Hr'. apply Hall. apply list_elem_of_further.
  exact Hr'.
Qed.

(** X6. Marking as read with a marker that no stored creation time
    exceeds leaves nothing unread: the count is 0 and the unread query
    is empty, while the messages stay stored. *)
Theorem mark_read_clears_unread (sql_like : string -> string -> bool)
    (timestamp : option string) (now : string) (d : Database) :
  truthy (py_or timestamp now) = true ->
  (forall r, r ∈ messages d ->
             String.leb (created_at r) (py_or timestamp now) = true) ->
  let d' := fst (mark_read timestamp now d) in
  unread_count d' = 0 /\
  get_unread_messages sql_like d' = [] /\
  messages d' = messages d.
Proof.
  intros Ht Hall d'.
  assert (Hm : get_state "read_marker" d' = Some (py_or timestamp now)).
  { unfold d', mark_read, get_state. simpl. apply lookup_insert_eq. }
  assert (Hmsgs : messages d' = messages d) by reflexivity.
  pose proof (unread_count_marker d' _ Hm Ht) as Hcount.
  rewrite (get_unread_messages_marker sql_like d' _ Hm Ht).
  rewrite Hcount, Hmsgs, (later_than_nil _ _ Hall).
  repeat split.
Qed.

(** X7. Whatever the read marker, the unread query never returns more
    rows than [unread_count] reports, and [unread_count] never exceeds
    [message_count]. *)
Theorem unread_le_count (sql_like : string -> string -> bool)
    (d : Database) :
  length (get_unread_messages sql_like d) <= unread_count d /\
  unread_count d <= message_count d.
Proof.
  assert (Hall : forall n,
            length (get_messages sql_like None (Z.of_nat n) None d)
            <= length (messages d)).
  { intros n. rewrite get_messages_all, length_take.
    rewrite (Permutation_length (order_by_created_at_asc_perm (messages d))).
    lia. }
  unfold message_count.
  destruct (get_state "read_marker" d) as [m|] eqn:Hm.
  - destruct (truthy m) eqn:Ht.
    + pose proof (unread_count_marker d m Hm Ht) as Hcount.
      pose proof (get_unread_messages_length sql_like d m Hm Ht) as Hlen.
      split; [lia|]. rewrite Hcount. unfold later_than.
      apply filter_length_le.
    + unfold get_unread_messages, unread_count. rewrite Hm. simpl.
      rewrite Ht. split; [apply (Hall 50) | lia].
  - unfold get_unread_messages, unread_count. rewrite Hm. simpl.
    split; [apply (Hall 50) | lia].
Qed.

(** * Further properties of the fetcher *)

#[global] Instance same_auth_but_access_refl : Reflexive same_auth_but_access.
Proof. intros d k _ _. reflexivity. Qed.

#[global] Instance same_auth_but_access_trans :
  Transitive same_auth_but_access.
Proof.
  intros d1 d2 d3 H1 H2 k Ha He. rewrite (H2 k Ha He). apply (H1 k Ha He).
Qed.

Lemma set_auth_access (key value : string) (d : Database) :
  key = "access_token" \/ key = "token_expiry" ->
  same_auth_but_access d (set_auth key value d).
Proof.
  intros Hkey k Ha He. unfold get_auth, set_auth. simpl.
  apply lookup_insert_ne. destruct Hkey; congruence.
Qed.

Lemma same_auth_same_auth_but_access (d d' : Database) :
  auth d' = auth d -> same_auth_but_access d d'.
Proof. intros H k _ _. unfold get_auth. rewrite H. reflexivity. Qed.

Section FetcherMore.

Variable datetime : Type.
Variable fromisoformat : string -> option datetime.
Variable strftime_utc : datetime -> string.

#[local] Abbreviation load_credentials := (load_credentials fromisoformat).
#[local] Abbreviation _get_service := (_get_service fromisoformat).
#[local] Abbreviation list_messages :=
  (list_messages fromisoformat strftime_utc).
#[local] Abbreviation send_message := (send_message fromisoformat).
#[local] Abbreviation get_space_info := (get_space_info fromisoformat).
#[local] Abbreviation poll_fn := (poll_fn fromisoformat).
#[local] Abbreviation app_poll_fn :=
  (app_poll_fn fromisoformat strftime_utc).

Lemma load_credentials_none (g : Google datetime) (d : Database) :
  truthy_opt (get_auth "refresh_token" d) = false ->
  load_credentials g d = (inr None, d).
Proof.
  intros H. unfold load_credentials, bind, query. rewrite H. reflexivity.
Qed.

(** X8. Without a stored refresh token, or with an empty one, every
    call of the Chat API wrapper raises [RuntimeError] before it asks
    Google anything, and leaves the connection as it was. *)
Theorem unauthenticated_raises (g : Google datetime)
    (after : option datetime) (page_size : Z)
    (created : string -> exn + RawMessage) (text : string)
    (got : exn + RawSpace) (d : Database) :
  truthy_opt (get_auth "refresh_token" d) = false ->
  load_credentials g d = (inr None, d) /\
  list_messages g after page_size d = (inl RuntimeError, d) /\
  send_message g created text d = (inl RuntimeError, d) /\
  get_space_info g got d = (inl RuntimeError, d).
Proof.
  intros H. pose proof (load_credentials_none g d H) as Hl.
  split; [exact Hl|].
  unfold list_messages, send_message, get_space_info, _get_service, bind.
  rewrite Hl. repeat split.
Qed.

Lemma load_credentials_stale (g : Google datetime) (d : Database)
    (rt : string) (expiry : option datetime) :
  get_auth "refresh_token" d = Some rt ->
  truthy rt = true ->
  (if truthy_opt (get_auth "token_expiry" d)
   then option_map Some
          (fromisoformat (default EmptyString (get_auth "token_expiry" d)))
   else Some None) = Some expiry ->
  stale g (get_auth "access_token" d) expiry = true ->
  load_credentials g d =
  match refresh g with
  | inl e => (inl e, d)
  | inr (new_token, new_expiry) =>
      (inr (Some {| token := Some new_token; refresh_token := rt |}),
       match new_expiry with
       | Some iso =>
           set_auth "token_expiry" iso (set_auth "access_token" new_token d)
       | None => set_auth "access_token" new_token d
       end)
  end.
Proof.
  intros Hrt Htruthy Hexp Hstale.
  unfold load_credentials, bind, query. rewrite Hrt.
  cbn [truthy_opt]. rewrite Htruthy. cbn [negb].
  destruct (truthy_opt (get_auth "token_expiry" d)).
  - destruct (fromisoformat (default EmptyString (get_auth "token_expiry" d)))
      as [dt|]; simpl in Hexp; [|discriminate].
    injection Hexp as <-. unfold ret at 1. cbv beta iota. rewrite Hstale.
    destruct (refresh g) as [e | [new_token [iso|]]]; reflexivity.
  - injection Hexp as <-. unfold ret at 1. cbv beta iota. rewrite Hstale.
    destruct (refresh g) as [e | [new_token [iso|]]]; reflexivity.
Qed.

(** X9. With a refresh token stored and an expiry that is absent or
    parses, credentials found stale are refreshed: when the refresh
    succeeds the new access token is stored and returned, the new
    expiry is stored when there is one, and nothing else changes; when
    the refresh raises, the exception leaves [load_credentials] and the
    connection is as it was. *)
Theorem token_refresh_persisted (g : Google datetime) (d : Database)
    (rt : string) (expiry : option datetime) :
  get_auth "refresh_token" d = Some rt ->
  truthy rt = true ->
  (if truthy_opt (get_auth "token_expiry" d)
   then option_map Some
          (fromisoformat (default EmptyString (get_auth "token_expiry" d)))
   else Some None) = Some expiry ->
  stale g (get_auth "access_token" d) expiry = true ->
  match refresh g with
  | inl e => load_credentials g d = (inl e, d)
  | inr (new_token, new_expiry) =>
      exists d',
        load_credentials g d =
          (inr (Some {| token := Some new_token; refresh_token := rt |}), d') /\
        get_auth "access_token" d' = Some new_token /\
        get_auth "token_expiry" d' =
          match new_expiry with
          | Some iso => Some iso
          | None => get_auth "token_expiry" d
          end /\
        get_auth "refresh_token" d' = Some rt /\
        state d' = state d /\
        messages d' = messages d
  end.
Proof.
  intros Hrt Htruthy Hexp Hstale.
  rewrite (load_credentials_stale g d rt expiry Hrt Htruthy Hexp Hstale).
  destruct (refresh g) as [e | [new_token [iso|]]]; [reflexivity | |].
  - eexists. split; [reflexivity|]. unfold get_auth in *. simpl.
    rewrite lookup_insert_eq.
    rewrite lookup_insert_ne by discriminate.
    rewrite lookup_insert_eq.
    rewrite !lookup_insert_ne by discriminate.
    repeat split. exact Hrt.
  - eexists. split; [reflexivity|]. unfold get_auth in *. simpl.
    rewrite lookup_insert_eq.
    rewrite !lookup_insert_ne by discriminate.
    repeat split. exact Hrt.
Qed.

Lemma load_credentials_auth (g : Google datetime) :
  frames same_auth_but_access (load_credentials g).
Proof.
  unfold load_credentials.
  fr_bind; [fr_leaf|]. intros rt.
  destruct (negb (truthy_opt rt)); [fr_leaf|].
  fr_bind; [fr_leaf|]. intros at_.
  fr_bind; [fr_leaf|]. intros er.
  fr_bind.
  { destruct (truthy_opt er); [|fr_leaf].
    destruct (fromisoformat (default EmptyString er)); fr_leaf. }
  intros expiry.
  destruct (stale g at_ expiry); [|fr_leaf].
  destruct (refresh g) as [e | [tok exp]]; [fr_leaf|].
  fr_bind.
  { fr_exec; intros d. apply set_auth_access. left. reflexivity. }
  intros _. fr_bind; [|intros _; fr_leaf].
  destruct exp; [|fr_leaf].
  fr_exec; intros d. apply set_auth_access. right. reflexivity.
Qed.

Lemma _get_service_auth (g : Google datetime) :
  frames same_auth_but_access (_get_service g).
Proof.
  unfold _get_service. fr_bind; [apply load_credentials_auth|].
  intros [c|]; fr_leaf.
Qed.

Lemma list_messages_auth (g : Google datetime) (after : option datetime)
    (page_size : Z) :
  frames same_auth_but_access (list_messages g after page_size).
Proof.
  unfold list_messages. fr_bind; [apply _get_service_auth|].
  intros svc.
  destruct (list_pages g (filter_str strftime_utc after)
              (page_size `min` 1000)) as [pages [e|]]; fr_leaf.
Qed.

Lemma send_message_auth (g : Google datetime)
    (created : string -> exn + RawMessage) (text : string) :
  frames same_auth_but_access (send_message g created text).
Proof.
  unfold send_message. fr_bind; [apply _get_service_auth|].
  intros svc. destruct (created text); fr_leaf.
Qed.

Lemma send_message_frames (g : Google datetime)
    (created : string -> exn + RawMessage) (text : string) :
  frames same_state_messages (send_message g created text).
Proof.
  unfold send_message, _get_service.
  fr_bind.
  { fr_bind; [apply load_credentials_frames|]. intros [c|]; fr_leaf. }
  intros svc. destruct (created text); fr_leaf.
Qed.

Lemma app_poll_fn_auth (g : Google datetime) (now : string) :
  frames same_auth_but_access (app_poll_fn g now).
Proof.
  unfold app_poll_fn, poll_fn.
  fr_bind; [fr_leaf|]. intros latest.
  fr_bind.
  { intros d. rewrite poll_after_pure. reflexivity. }
  intros after. unfold fetch_and_store.
  fr_try; [apply list_messages_auth | fr_leaf |].
  intros [|m msgs]; [fr_leaf|].
  intros d. apply same_auth_same_auth_but_access.
  pose proof (upsert_loop_tables now (m :: msgs) d 0) as [_ H].
  unfold upsert_messages.
  destruct (upsert_loop now (m :: msgs) d 0) as [d' n]. exact H.
Qed.

(** X10. Fetching, sending and polling write no slot of the table
    [auth] but [access_token] and [token_expiry]; in particular the
    stored refresh token is never changed by them. *)
Theorem fetcher_keeps_refresh_token (g : Google datetime)
    (after : option datetime) (page_size : Z)
    (created : string -> exn + RawMessage) (text : string)
    (now now_iso : string) (d : Database) :
  same_auth_but_access d (snd (list_messages g after page_size d)) /\
  same_auth_but_access d (snd (send_message g created text d)) /\
  same_auth_but_access d (snd (app_poll_fn g now d)) /\
  same_auth_but_access d (snd (_loop_poll (app_poll_fn g now) now_iso d)) /\
  get_auth "refresh_token"
    (snd (_loop_poll (app_poll_fn g now) now_iso d)) =
  get_auth "refresh_token" d.
Proof.
  assert (Hloop : frames same_auth_but_access
                    (_loop_poll (app_poll_fn g now) now_iso)).
  { unfold _loop_poll.
    fr_try; [|fr_leaf | intros; fr_leaf].
    fr_bind; [apply app_poll_fn_auth|].
    intros _. fr_exec; intros d0.
    apply same_auth_same_auth_but_access. reflexivity. }
  split; [apply list_messages_auth|].
  split; [apply send_message_auth|].
  split; [apply app_poll_fn_auth|].
  split; [apply Hloop|].
  apply (Hloop d); discriminate.
Qed.

(** X11. A stored [token_expiry] that is not empty and does not parse
    makes every authenticated call raise [ValueError], not the
    [RuntimeError] of a missing login: [poll_fn] does not swallow it,
    and the connection is left as it was. *)
Theorem malformed_expiry_raises (g : Google datetime)
    (after : option datetime) (page_size : Z)
    (created : string -> exn + RawMessage) (text : string)
    (now : string) (d : Database) (rt raw : string) :
  get_auth "refresh_token" d = Some rt ->
  truthy rt = true ->
  get_auth "token_expiry" d = Some raw ->
  truthy raw = true ->
  fromisoformat raw = None ->
  load_credentials g d = (inl ValueError, d) /\
  list_messages g after page_size d = (inl ValueError, d) /\
  send_message g created text d = (inl ValueError, d) /\
  app_poll_fn g now d = (inl ValueError, d).
Proof.
  intros Hrt Htruthy Hraw Hrawt Hparse.
  assert (Hl : load_credentials g d = (inl ValueError, d)).
  { unfold load_credentials, bind, query. rewrite Hrt.
    cbn [truthy_opt]. rewrite Htruthy. cbn [negb].
    rewrite Hraw. cbn [truthy_opt from_option id]. rewrite Hrawt, Hparse.
    reflexivity. }
  assert (Hlist : forall a ps, list_messages g a ps d = (inl ValueError, d)).
  { intros a ps. unfold list_messages, _get_service, bind. rewrite Hl.
    reflexivity. }
  split; [exact Hl|]. split; [apply Hlist|].
  split.
  { unfold send_message, _get_service, bind. rewrite Hl. reflexivity. }
  unfold app_poll_fn, poll_fn, bind, query.
  pose proof (poll_after_pure datetime fromisoformat
                (latest_message_time d) d) as Hpure.
  destruct (poll_after fromisoformat (latest_message_time d) d)
    as [[e | a] d'] eqn:E; simpl in Hpure; subst d'.
  - unfold poll_after in E.
    destruct (truthy_opt (latest_message_time d)); [|discriminate].
    destruct (fromisoformat (default EmptyString (latest_message_time d)));
      [discriminate|].
    injection E as <-. reflexivity.
  - unfold fetch_and_store, try_except. rewrite Hlist. reflexivity.
Qed.

(** X12. When the latest stored creation time is not empty and does not
    parse, [poll_fn] raises [ValueError] without calling the fetcher
    and without writing; the loop swallows it and records no
    [last_poll_at], so every later iteration fails the same way. *)
Theorem unparsable_latest_blocks_polling
    (fetch : option datetime -> Py (list Message)) (now now_iso : string)
    (d : Database) (ts : string) :
  latest_message_time d = Some ts ->
  truthy ts = true ->
  fromisoformat ts = None ->
  poll_fn fetch now d = (inl ValueError, d) /\
  _loop_poll (poll_fn fetch now) now_iso d = (inr tt, d).
Proof.
  intros Hlatest Htruthy Hparse.
  assert (H : poll_fn fetch now d = (inl ValueError, d)).
  { unfold poll_fn, bind, query, poll_after. rewrite Hlatest.
    cbn [truthy_opt from_option id]. rewrite Htruthy, Hparse. reflexivity. }
  split; [exact H|].
  unfold _loop_poll, try_except, bind. rewrite H. reflexivity.
Qed.


End FetcherMore.

(** * Further properties of the polling loop *)

Section LoopMore.

Variable config : Config.

#[local] Abbreviation step := (step config).
#[local] Abbreviation run := (run config).
#[local] Abbreviation _loop_decide := (_loop_decide config).

Lemma run_cons (ev : Event) (evs : list Event) (a : App) :
  run (ev :: evs) a =
  match step a ev with
  | Some a' => run evs a'
  | None => None
  end.
Proof. reflexivity. Qed.

(** X14. An iteration started in ACTIVE no more than
    [POLL_DECAY_TIMEOUT] after the last touch, the bound included,
    keeps the poller as it is and will sleep [POLL_ACTIVE_INTERVAL].
    The timeout is a number of seconds from 0 to [2 ^ 53 - 1], which
    the rounding of the elapsed time cannot cross. *)
Theorem no_decay_within_timeout (a : App) (now : Q) :
  (0 <= POLL_DECAY_TIMEOUT config < 2 ^ 53)%Z ->
  loop a = AtTop ->
  _mode (poller a) = ACTIVE ->
  (now - _last_skill_touch (poller a)
   <= inject_Z (POLL_DECAY_TIMEOUT config))%Q ->
  step a (EvLoopDecide now) =
    Some {| poller := poller a;
            loop := AwaitPoll (POLL_ACTIVE_INTERVAL config);
            db := db a |}.
Proof.
  intros HT Htop Hact Hsoon. simpl. rewrite Htop.
  destruct (_loop_decide_cases config now (poller a))
    as [[E _] | [_ [_ [_ Hlate]]]].
  - rewrite E. unfold _current_interval. rewrite Hact. reflexivity.
  - rewrite (elapsed_within_timeout config _ _ HT Hsoon) in Hlate.
    discriminate Hlate.
Qed.

Lemma step_interval_configured (a a' : App) (ev : Event) :
  step a ev = Some a' ->
  interval_configured config a ->
  interval_configured config a'.
Proof.
  unfold interval_configured. intros Hstep Hinv.
  destruct ev as [now | ts now | now msgs | k v | now | pf iso | | ];
    simpl in Hstep.
  - injection Hstep as <-. exact Hinv.
  - injection Hstep as <-. exact Hinv.
  - injection Hstep as <-. exact Hinv.
  - injection Hstep as <-. exact Hinv.
  - destruct (loop a); try discriminate.
    destruct (_loop_decide_cases config now (poller a))
      as [[E _] | [E _]]; rewrite E in Hstep; injection Hstep as <-; simpl.
    + unfold _current_interval.
      destruct (PollMode_eqb (_mode (poller a)) ACTIVE); auto.
    + right. reflexivity.
  - destruct (loop a); try discriminate.
    destruct (_loop_poll pf iso (db a)) as [[e | u] d];
      injection Hstep as <-; simpl; [exact I | exact Hinv].
  - destruct (loop a); try discriminate.
    injection Hstep as <-. exact I.
  - destruct (loop a); try discriminate; injection Hstep as <-; exact I.
Qed.

(** X15. Whatever happens, the interval a suspended loop holds, and
    will sleep or is sleeping, is one of the two configured intervals. *)
Theorem interval_always_configured (evs : list Event) (a0 a : App) :
  interval_configured config a0 ->
  run evs a0 = Some a ->
  interval_configured config a.
Proof.
  revert a0. induction evs as [|ev evs IH]; intros a0 Hinv Hrun;
    simpl in Hrun.
  - injection Hrun as <-. exact Hinv.
  - destruct (step a0 ev) as [a1|] eqn:E; [|discriminate].
    apply (IH a1); [|exact Hrun].
    exact (step_interval_configured a0 a1 ev E Hinv).
Qed.

(** X16. A touch while the loop sleeps makes the poller ACTIVE but does
    not end or shorten the sleep; when the sleep ends and the time
    since that touch, as the subtraction of the two float readings
    gives it, is more than [POLL_DECAY_TIMEOUT], the next iteration
    puts the poller back to IDLE before it polls and will sleep
    [POLL_IDLE_INTERVAL] again.  For a timeout from 0 to [2 ^ 53 - 1]
    this is the case when the sleep ends a second or more over the
    timeout after the touch. *)
Theorem touch_during_sleep (a : App) (interval : Z) (t now : Q) :
  loop a = AwaitSleep interval ->
  (0 < t)%Q ->
  (exists a1,
     step a (EvTouch t) = Some a1 /\
     _mode (poller a1) = ACTIVE /\
     loop a1 = AwaitSleep interval /\
     db a1 = db a) /\
  (f64_gt_int (b64_sub now t) (POLL_DECAY_TIMEOUT config) = true ->
   run [EvTouch t; EvLoopWake; EvLoopDecide now] a =
     Some {| poller := {| _mode := IDLE; _last_skill_touch := t |};
             loop := AwaitPoll (POLL_IDLE_INTERVAL config);
             db := db a |}) /\
  ((0 <= POLL_DECAY_TIMEOUT config)%Z ->
   (POLL_DECAY_TIMEOUT config + 1 <= 2 ^ 53)%Z ->
   (inject_Z (POLL_DECAY_TIMEOUT config) + 1 <= now - t)%Q ->
   run [EvTouch t; EvLoopWake; EvLoopDecide now] a =
     Some {| poller := {| _mode := IDLE; _last_skill_touch := t |};
             loop := AwaitPoll (POLL_IDLE_INTERVAL config);
             db := db a |}).
Proof.
  intros Hsleep Hpos.
  assert (Hrun :
    f64_gt_int (b64_sub now t) (POLL_DECAY_TIMEOUT config) = true ->
    run [EvTouch t; EvLoopWake; EvLoopDecide now] a =
      Some {| poller := {| _mode := IDLE; _last_skill_touch := t |};
              loop := AwaitPoll (POLL_IDLE_INTERVAL config);
              db := db a |});
    [|split; [|split; [exact Hrun|]]].
  3: { intros H0 H53 Hlate. apply Hrun.
       apply elapsed_over_timeout; assumption. }
  2: { eexists. split; [reflexivity|]. simpl. rewrite touch_mode.
       repeat split. exact Hsleep. }
  - intros Hlate.
    set (a1 := with_poller a (touch t (poller a))).
    set (a2 := {| poller := touch t (poller a); loop := AtTop; db := db a |}).
    assert (H1 : step a (EvTouch t) = Some a1) by reflexivity.
    assert (H2 : step a1 EvLoopWake = Some a2).
    { simpl. rewrite Hsleep. reflexivity. }
    assert (H3 : step a2 (EvLoopDecide now) =
                 Some {| poller := {| _mode := IDLE; _last_skill_touch := t |};
                         loop := AwaitPoll (POLL_IDLE_INTERVAL config);
                         db := db a |}).
    { change (step a2 (EvLoopDecide now))
        with (let (p, interval) := _loop_decide now (touch t (poller a)) in
              Some {| poller := p; loop := AwaitPoll interval; db := db a |}).
      destruct (_loop_decide_cases config now (touch t (poller a)))
        as [[_ [H | [H | H]]] | [E _]].
      + rewrite touch_mode in H. discriminate H.
      + rewrite touch_signal in H. lra.
      + rewrite touch_signal in H. congruence.
      + rewrite E, touch_signal. reflexivity. }
    rewrite run_cons, H1. cbv beta iota.
    rewrite run_cons, H2. cbv beta iota.
    rewrite run_cons, H3. reflexivity.
Qed.

Lemma step_finished (a a' : App) (ev : Event) (e : exn) :
  loop a = Finished e ->
  step a ev = Some a' ->
  handler_event ev = true /\
  loop a' = Finished e /\
  get_state "last_poll_at" (db a') = get_state "last_poll_at" (db a) /\
  (_mode (poller a) = ACTIVE -> _mode (poller a') = ACTIVE).
Proof.
  intros Hfin Hstep.
  destruct ev as [now | ts now | now msgs | k v | now | pf iso | | ];
    simpl in Hstep; try (rewrite Hfin in Hstep; discriminate Hstep);
    injection Hstep as <-; simpl.
  - repeat split; [exact Hfin|]. intros _. apply touch_mode.
  - repeat split; try assumption; auto.
    unfold get_state. simpl. apply lookup_insert_ne. discriminate.
  - repeat split; try assumption; auto.
    unfold get_state. rewrite upsert_messages_state. reflexivity.
  - repeat split; try assumption; auto.
Qed.

(** X17. Once an exception has left the loop, by cancellation or
    otherwise, no loop step happens again: every later event is a
    handler's, [last_poll_at] keeps its value, and a poller that is
    ACTIVE stays ACTIVE for good. *)
Theorem finished_loop_stays_finished (evs : list Event) (a a' : App)
    (e : exn) :
  loop a = Finished e ->
  run evs a = Some a' ->
  Forall (fun ev => handler_event ev = true) evs /\
  loop a' = Finished e /\
  get_state "last_poll_at" (db a') = get_state "last_poll_at" (db a) /\
  (_mode (poller a) = ACTIVE -> _mode (poller a') = ACTIVE).
Proof.
  revert a. induction evs as [|ev evs IH]; intros a Hfin Hrun;
    simpl in Hrun.
  - injection Hrun as <-. repeat split; [constructor | exact Hfin | auto].
  - destruct (step a ev) as [a1|] eqn:E; [|discriminate].
    destruct (step_finished a a1 ev e Hfin E) as [H1 [H2 [H3 H4]]].
    destruct (IH a1 H2 Hrun) as [H5 [H6 [H7 H8]]].
    repeat split.
    + constructor; assumption.
    + exact H6.
    + congruence.
    + auto.
Qed.

End LoopMore.

#[global] Instance grows_refl : Reflexive grows.
Proof.
  intros d. split; [|auto]. exists []. symmetry. apply app_nil_r.
Qed.

#[global] Instance grows_trans : Transitive grows.
Proof.
  intros d1 d2 d3 [[add1 H1] N1] [[add2 H2] N2]. split; [|auto].
  exists (add1 ++ add2)%list. rewrite H2, H1, app_assoc. reflexivity.
Qed.

Lemma same_messages_grows (d d' : Database) :
  messages d' = messages d -> grows d d'.
Proof.
  intros H. unfold grows. rewrite H. split; [|auto].
  exists []. symmetry. apply app_nil_r.
Qed.

Lemma upsert_messages_grows (now : string) (msgs : list Message)
    (d : Database) :
  grows d (fst (upsert_messages now msgs d)).
Proof.
  unfold upsert_messages. split.
  - destruct (upsert_loop_spec now msgs d 0) as [added [H _]].
    exists added. exact H.
  - apply upsert_loop_NoDup.
Qed.

Section StoreInvariant.

Variable datetime : Type.
Variable fromisoformat : string -> option datetime.
Variable strftime_utc : datetime -> string.
Variable config : Config.

#[local] Abbreviation app_poll_fn :=
  (app_poll_fn fromisoformat strftime_utc).
#[local] Abbreviation app_event := (app_event fromisoformat strftime_utc).
#[local] Abbreviation step := (step config).
#[local] Abbreviation run := (run config).

Lemma _loop_poll_grows (g : Google datetime) (now now_iso : string) :
  frames grows (_loop_poll (app_poll_fn g now) now_iso).
Proof.
  unfold _loop_poll.
  fr_try; [|fr_leaf | intros; fr_leaf].
  fr_bind.
  - unfold app_poll_fn, poll_fn.
    fr_bind; [fr_leaf|]. intros latest.
    fr_bind.
    { intros d. rewrite poll_after_pure. reflexivity. }
    intros after. unfold fetch_and_store.
    fr_try; [|fr_leaf|].
    + intros d. apply same_messages_grows.
      apply (list_messages_frames datetime fromisoformat strftime_utc
               g after 100 d).
    + intros [|m msgs]; [fr_leaf|].
      intros d. pose proof (upsert_messages_grows now (m :: msgs) d) as H.
      destruct (upsert_messages now (m :: msgs) d) as [d' n]. exact H.
  - intros _. fr_exec; intros d. apply same_messages_grows. reflexivity.
Qed.

Lemma step_grows (a a' : App) (ev : Event) :
  app_event ev ->
  step a ev = Some a' ->
  grows (db a) (db a').
Proof.
  intros Happ Hstep.
  destruct ev as [now | ts now | now msgs | k v | now | pf iso | | ];
    simpl in Hstep.
  - injection Hstep as <-. reflexivity.
  - injection Hstep as <-. apply same_messages_grows. reflexivity.
  - injection Hstep as <-. apply upsert_messages_grows.
  - injection Hstep as <-. apply same_messages_grows. reflexivity.
  - destruct (loop a); try discriminate.
    destruct (_loop_decide config now (poller a)) as [p i].
    injection Hstep as <-. reflexivity.
  - destruct (loop a); try discriminate.
    destruct Happ as [g [now ->]].
    pose proof (_loop_poll_grows g now iso (db a)) as Hg.
    destruct (_loop_poll (app_poll_fn g now) iso (db a)) as [[e | u] d'];
      injection Hstep as <-; exact Hg.
  - destruct (loop a); try discriminate.
    injection Hstep as <-. reflexivity.
  - destruct (loop a); try discriminate;
      injection Hstep as <-; reflexivity.
Qed.

(** X18. Along any sequence of events of the application the table of
    messages only grows at its end: no stored row is ever changed,
    moved or removed, and identities that were pairwise distinct stay
    so; started on a new database, the identities are always pairwise
    distinct. *)
Theorem store_only_grows (evs : list Event) (a0 a : App) :
  Forall app_event evs ->
  run evs a0 = Some a ->
  grows (db a0) (db a) /\
  (messages (db a0) = [] -> NoDup (map row_id (messages (db a)))).
Proof.
  intros Happ Hrun.
  assert (Hg : grows (db a0) (db a)).
  { revert a0 Hrun. induction Happ as [|ev evs Hev Hevs IH];
      intros a0 Hrun; simpl in Hrun.
    - injection Hrun as <-. reflexivity.
    - destruct (step a0 ev) as [a1|] eqn:E; [|discriminate].
      transitivity (db a1);
        [exact (step_grows a0 a1 ev Hev E) | exact (IH a1 Hrun)]. }
  split; [exact Hg|].
  intros Hempty. apply Hg. rewrite Hempty. constructor.
Qed.

End StoreInvariant.

(** * Properties of the request handlers *)

Section RoutesFacts.

Variable datetime : Type.
Variable fromisoformat : string -> option datetime.
Variable sql_like : string -> string -> bool.
Variable GOOGLE_CHAT_SPACE_ID : string.
Variable config : Config.

#[local] Abbreviation send_chat_message :=
  (routes.send_chat_message fromisoformat).
#[local] Abbreviation status :=
  (routes.status GOOGLE_CHAT_SPACE_ID).

(** The writes of [load_credentials] are a list of [set_auth] calls. *)
Lemma load_credentials_set_auths (g : Google datetime) (d : Database) :
  exists kvs, snd (load_credentials fromisoformat g d) = set_auths kvs d.
Proof.
  unfold load_credentials, bind, query, exec, ret, raise.
  destruct (negb (truthy_opt (get_auth "refresh_token" d)));
    [exists []; reflexivity|].
  destruct (truthy_opt (get_auth "token_expiry" d)).
  - destruct (fromisoformat (default EmptyString (get_auth "token_expiry" d)))
      as [dt|]; [|exists []; reflexivity].
    destruct (stale g (get_auth "access_token" d) (Some dt));
      [|exists []; reflexivity].
    destruct (refresh g) as [e | [tok [iso|]]].
    + exists []. reflexivity.
    + exists [("access_token", tok); ("token_expiry", iso)]. reflexivity.
    + exists [("access_token", tok)]. reflexivity.
  - destruct (stale g (get_auth "access_token" d) None);
      [|exists []; reflexivity].
    destruct (refresh g) as [e | [tok [iso|]]].
    + exists []. reflexivity.
    + exists [("access_token", tok); ("token_expiry", iso)]. reflexivity.
    + exists [("access_token", tok)]. reflexivity.
Qed.

Lemma send_message_set_auths (g : Google datetime)
    (created : string -> exn + RawMessage) (text : string) (d : Database) :
  exists kvs,
    snd (send_message fromisoformat g created text d) = set_auths kvs d.
Proof.
  destruct (load_credentials_set_auths g d) as [kvs H]. exists kvs.
  unfold send_message, _get_service, bind.
  destruct (load_credentials fromisoformat g d) as [[e | [c|]] d'];
    simpl in *; try exact H.
  destruct (created text); exact H.
Qed.

Lemma run_set_auths (kvs : list (string * string)) (a : App) :
  run config (map (fun kv => EvSetAuth (fst kv) (snd kv)) kvs) a =
  Some (with_db a (set_auths kvs (db a))).
Proof.
  revert a. induction kvs as [|kv kvs IH]; intros a; simpl.
  - destruct a; reflexivity.
  - rewrite IH. reflexivity.
Qed.

Lemma Forall_handler_set_auths (kvs : list (string * string)) :
  Forall (fun ev => handler_event ev = true)
         (map (fun kv => EvSetAuth (fst kv) (snd kv)) kvs).
Proof. apply Forall_map. apply Forall_true. intros kv. reflexivity. Qed.

(** X19. Every handler that calls [_touch_skill] leaves the poller
    ACTIVE with the activity signal at the reading of the call, also
    when the send fails; a request rejected for its [limit] and a
    mark-read leave the poller as it was. *)
Theorem touching_routes_boost (now : Q) (a : App) :
  (forall since limit sender,
     let r := routes.get_messages sql_like now since limit sender a in
     match fst r with
     | inr _ => poller (snd r) = {| _mode := ACTIVE; _last_skill_touch := now |}
     | inl _ => snd r = a
     end) /\
  poller (snd (routes.get_unread sql_like now a)) =
    {| _mode := ACTIVE; _last_skill_touch := now |} /\
  (forall g created text wall,
     poller (snd (send_chat_message now g created text wall a)) =
       {| _mode := ACTIVE; _last_skill_touch := now |}) /\
  routes.boost_polling now a =
    ("active", with_poller a {| _mode := ACTIVE; _last_skill_touch := now |}) /\
  (forall body wall, poller (snd (routes.mark_read body wall a)) = poller a).
Proof.
  assert (Ht : touch now (poller a) =
               {| _mode := ACTIVE; _last_skill_touch := now |}).
  { destruct (poller a) as [[] t]; reflexivity. }
  split; [|split; [|split; [|split]]].
  - intros since limit sender. unfold routes.get_messages.
    destruct ((1 <=? default 100 limit)%Z && (default 100 limit <=? 1000)%Z);
      simpl; [exact Ht | reflexivity].
  - simpl. exact Ht.
  - intros g created text wall. unfold routes.send_chat_message.
    destruct (send_message fromisoformat g created text
                (db (routes._touch_skill now a))) as [[e | msg] d].
    + destruct (isinstance_RuntimeError e); simpl; exact Ht.
    + destruct (upsert_messages wall [msg] d) as [d' n]. simpl. exact Ht.
  - unfold routes.boost_polling, routes._touch_skill. rewrite Ht.
    reflexivity.
  - intros body wall. reflexivity.
Qed.

(** X20. What a handler does to the application is what a sequence of
    handler events does: a touch, the writes of a token refresh, a
    mark-read, an upsert.  The properties of event sequences hold for
    the handlers. *)
Theorem routes_are_events (now : Q) (a : App) :
  (forall since limit sender,
     exists evs,
       Forall (fun ev => handler_event ev = true) evs /\
       run config evs a =
         Some (snd (routes.get_messages sql_like now since limit sender a))) /\
  run config [EvTouch now] a =
    Some (snd (routes.get_unread sql_like now a)) /\
  run config [EvTouch now] a = Some (snd (routes.boost_polling now a)) /\
  (forall body wall,
        run config
       [EvMarkRead (match body with Some b => b | None => None end) wall] a =
       Some (snd (routes.mark_read body wall a))) /\
  (forall g created text wall,
     exists evs,
       Forall (fun ev => handler_event ev = true) evs /\
       run config evs a =
         Some (snd (send_chat_message now g created text wall a))).
Proof.
  split; [|split; [|split; [|split]]].
  - intros since limit sender. unfold routes.get_messages.
    destruct ((1 <=? default 100 limit)%Z && (default 100 limit <=? 1000)%Z).
    + exists [EvTouch now]. split; [repeat constructor | reflexivity].
    + exists []. split; [constructor | reflexivity].
  - reflexivity.
  - reflexivity.
  - intros body wall. reflexivity.
  - intros g created text wall. unfold routes.send_chat_message.
    set (a1 := routes._touch_skill now a).
    destruct (send_message_set_auths g created text (db a1)) as [kvs Hk].
    assert (Hrun : run config (EvTouch now ::
                        map (fun kv => EvSetAuth (fst kv) (snd kv)) kvs) a =
                   Some (with_db a1 (set_auths kvs (db a1)))).
    { change (run config (map (fun kv => EvSetAuth (fst kv) (snd kv)) kvs) a1 =
              Some (with_db a1 (set_auths kvs (db a1)))).
      apply run_set_auths. }
    destruct (send_message fromisoformat g created text (db a1))
      as [[e | msg] d]; simpl in Hk; subst d.
    + exists (EvTouch now :: map (fun kv => EvSetAuth (fst kv) (snd kv)) kvs).
      split; [constructor; [reflexivity | apply Forall_handler_set_auths]|].
      rewrite Hrun. destruct (isinstance_RuntimeError e); reflexivity.
    + exists ((EvTouch now :: map (fun kv => EvSetAuth (fst kv) (snd kv)) kvs)
              ++ [EvUpsert wall [msg]])%list.
      split.
      * apply Forall_app. split.
        -- constructor; [reflexivity | apply Forall_handler_set_auths].
        -- repeat constructor.
      * rewrite (run_app config), Hrun. cbn [run step].
        destruct (upsert_messages wall [msg] (set_auths kvs (db a1)))
          as [d' n]. reflexivity.
Qed.

Lemma send_message_result (g : Google datetime)
    (created : string -> exn + RawMessage) (text : string) (d : Database) :
  match send_message fromisoformat g created text d with
  | (inr msg, _) => exists raw, created text = inr raw /\ msg = _normalize raw
  | (inl _, _) => True
  end.
Proof.
  unfold send_message, bind.
  destruct (_get_service fromisoformat g d) as [[e | c] d']; [exact I|].
  destruct (created text) as [e | raw]; [exact I|].
  exists raw. split; reflexivity.
Qed.

(** X21. A send that succeeds returns the normalised message Google
    created and leaves its identity stored, so that upserting the same
    message again, as a later poll would, changes nothing; a send that
    fails stores no message and answers 503 exactly when the exception
    is a [RuntimeError], as it is whenever no refresh token is
    stored. *)
Theorem send_stores_message (now : Q) (g : Google datetime)
    (created : string -> exn + RawMessage) (text wall : string) (a : App) :
  match send_chat_message now g created text wall a with
  | (inr msg, a') =>
      (exists raw, created text = inr raw /\ msg = _normalize raw) /\
      has_id (msg_id msg) (messages (db a')) = true /\
      grows (db a) (db a') /\
      state (db a') = state (db a) /\
      forall now',
        upsert_messages now' [msg] (db a') = (db a', total_changes (db a'))
  | (inl f, a') =>
      messages (db a') = messages (db a) /\
      state (db a') = state (db a) /\
      exists e d,
        send_message fromisoformat g created text (db a) = (inl e, d) /\
        f = (if isinstance_RuntimeError e
             then routes.HTTPException 503
             else routes.Uncaught e)
  end /\
  (truthy_opt (get_auth "refresh_token" (db a)) = false ->
   send_chat_message now g created text wall a =
     (inl (routes.HTTPException 503), routes._touch_skill now a)).
Proof.
  split.
  - unfold routes.send_chat_message.
    change (db (routes._touch_skill now a)) with (db a).
    pose proof (send_message_result g created text (db a)) as Hres.
    pose proof (send_message_frames datetime fromisoformat g created text
                  (db a)) as [Hst Hmsgs].
    destruct (send_message fromisoformat g created text (db a))
      as [[e | msg] d]; simpl in Hst, Hmsgs.
    + assert (Hf : exists e0 d0,
                (inl e, d) = (@inl exn Message e0, d0) /\
                (if isinstance_RuntimeError e
                 then routes.HTTPException 503 else routes.Uncaught e) =
                (if isinstance_RuntimeError e0
                 then routes.HTTPException 503 else routes.Uncaught e0)).
      { exists e, d. split; reflexivity. }
      destruct (isinstance_RuntimeError e); simpl;
        (split; [exact Hmsgs | split; [exact Hst | exact Hf]]).
    + pose proof (upsert_messages_grows wall [msg] d) as Hg.
      pose proof (upsert_messages_state wall [msg] d) as Hs.
      destruct (upsert_loop_spec wall [msg] d 0) as [_ [_ [_ [_ [Hin _]]]]].
      fold (upsert_messages wall [msg] d) in Hin.
      specialize (Hin msg (list_elem_of_here _ _)).
      destruct (upsert_messages wall [msg] d) as [d' n]. simpl in *.
      split; [exact Hres|]. split; [exact Hin|].
      split.
      { transitivity d; [apply same_messages_grows; exact Hmsgs | exact Hg]. }
      split; [congruence|].
      intros now'. apply upsert_messages_present. exact Hin.
  - intros Hno. unfold routes.send_chat_message.
    change (db (routes._touch_skill now a)) with (db a).
    destruct (unauthenticated_raises datetime fromisoformat
                (fun d => EmptyString) g None 0%Z created text
                (inl RuntimeError) (db a) Hno) as [_ [_ [Hsend _]]].
    rewrite Hsend. simpl. destruct a; reflexivity.
Qed.

(** X22. [GET /messages] answers 422 and does nothing unless the
    limit, 100 when none is given, lies between 1 and 1000; otherwise
    it touches the poller and returns the rows of [get_messages], at
    most [limit] of them and never more than are stored. *)
Theorem get_messages_route_limit (now : Q) (since : option string)
    (limit : option Z) (sender : option string) (a : App) :
  let l := default 100%Z limit in
  ((l < 1 \/ 1000 < l)%Z ->
   routes.get_messages sql_like now since limit sender a =
     (inl (routes.HTTPException 422), a)) /\
  ((1 <= l <= 1000)%Z ->
   let rows := get_messages sql_like since l sender (db a) in
   routes.get_messages sql_like now since limit sender a =
     (inr rows, routes._touch_skill now a) /\
   length rows <= Z.to_nat l /\
   length rows <= 1000 /\
   length rows <= message_count (db a)).
Proof.
  intros l.
  assert (Hrows : forall rows : list Row,
            rows = get_messages sql_like since l sender (db a) ->
            length rows <= message_count (db a) /\
            ((0 <= l)%Z -> length rows <= Z.to_nat l)).
  { intros rows ->. split.
    - unfold get_messages, message_count.
      match goal with
      | |- length (sql_limit _ ?l0) <= _ =>
          destruct (sql_limit_prefix l l0) as [rest Hrest];
          transitivity (length l0)
      end.
      + rewrite <- Hrest at 2. rewrite length_app. lia.
      + rewrite (Permutation_length (order_by_created_at_asc_perm _)).
        apply filter_length_le.
    - destruct (get_messages_result sql_like since l sender (db a))
        as [_ [_ [Hlen _]]]. exact Hlen. }
  unfold routes.get_messages. fold l. split.
  - intros Hbad.
    destruct (Z.leb_spec 1 l); destruct (Z.leb_spec l 1000);
      simpl; try reflexivity; lia.
  - intros Hok.
    destruct (Z.leb_spec 1 l); [|lia].
    destruct (Z.leb_spec l 1000); [|lia].
    destruct (Hrows _ eq_refl) as [H1 H2].
    cbv zeta. cbn [andb].
    split; [reflexivity|].
    split; [apply H2; lia|]. split; [|exact H1].
    etransitivity; [apply H2; lia | lia].
Qed.

Lemma get_unread_messages_le_500 (d : Database) :
  length (get_unread_messages sql_like d) <= 500.
Proof.
  unfold get_unread_messages.
  destruct (truthy_opt (get_state "read_marker" d)).
  - destruct (get_messages_result sql_like (get_state "read_marker" d)
                500 None d) as [_ [_ [Hlen _]]].
    apply Hlen. lia.
  - destruct (get_messages_result sql_like None 50 None d)
      as [_ [_ [Hlen _]]].
    etransitivity; [apply Hlen; lia | lia].
Qed.

(** X23. The body of [GET /messages/unread] carries the length of its
    list as [count], at most 500, and never more than the unread count
    [GET /status] reports, which never exceeds its message count. *)
Theorem get_unread_response (now : Q) (a : App) :
  let r := routes.get_unread sql_like now a in
  routes.resp_count (fst r) = length (routes.resp_messages (fst r)) /\
  routes.resp_count (fst r) <= 500 /\
  routes.resp_count (fst r) <= routes.status_unread_count (status (snd r)) /\
  routes.status_unread_count (status (snd r))
    <= routes.status_message_count (status (snd r)).
Proof.
  intros r. simpl.
  destruct (unread_le_count sql_like (db a)) as [H1 H2].
  repeat split; try assumption. apply get_unread_messages_le_500.
Qed.

(** X24. [GET /status] says [authenticated] as soon as a refresh token
    is stored, even an empty one.  When it says no, a send answers
    503; with an empty token stored it says yes and a send answers 503
    all the same.  After a boost it reports the mode the boost
    answered. *)
Theorem status_authenticated (now : Q) (g : Google datetime)
    (created : string -> exn + RawMessage) (text wall : string) (a : App) :
  (routes.authenticated (status a) = false ->
   fst (send_chat_message now g created text wall a) =
     inl (routes.HTTPException 503)) /\
  (get_auth "refresh_token" (db a) = Some EmptyString ->
   routes.authenticated (status a) = true /\
   fst (send_chat_message now g created text wall a) =
     inl (routes.HTTPException 503)) /\
  routes.poll_mode (status (snd (routes.boost_polling now a))) =
    fst (routes.boost_polling now a).
Proof.
  pose proof (send_stores_message now g created text wall a) as [_ Hsend].
  split; [|split].
  - unfold routes.status. simpl. intros Hno. rewrite Hsend; [reflexivity|].
    destruct (get_auth "refresh_token" (db a)); [discriminate | reflexivity].
  - intros Hempty. unfold routes.status. simpl. rewrite Hempty.
    split; [reflexivity|]. rewrite Hsend; [reflexivity|].
    rewrite Hempty. reflexivity.
  - simpl. unfold mode. rewrite touch_mode. reflexivity.
Qed.

End RoutesFacts.

(** * The further statements at concrete inputs *)

(** A stored message, upserted again together with a new one. *)
Lemma upsert_messages_table_witness :
  let ma := {| msg_id := "spaces/S/messages/a";
               msg_sender_name := "Ann";
               msg_sender_email := None;
               msg_text := "first";
               msg_created_at := "2024-05-01T10:00:00.000000Z" |} in
  let mb := {| msg_id := "spaces/S/messages/b";
               msg_sender_name := "Bob";
               msg_sender_email := None;
               msg_text := "second";
               msg_created_at := "2024-05-01T11:00:00.000000Z" |} in
  let d := fst (upsert_messages "t0" [ma] Database_init) in
  let d' := fst (upsert_messages "t1" [ma; mb] d) in
  NoDup (map row_id (messages d)) /\
  NoDup (map row_id (messages d')) /\
  has_id "spaces/S/messages/b" (messages d') = true /\
  length (messages d') = 2.
Proof.
  intros ma mb d d'.
  assert (Hnd : NoDup (map row_id (messages d))).
  { repeat constructor. intros H. inversion H. }
  destruct (upsert_messages_table "t1" [ma; mb] d Hnd) as [H1 [H2 _]].
  split; [exact Hnd|]. split; [exact H1|].
  split; [|reflexivity].
  apply (H2 mb). apply list_elem_of_further. apply list_elem_of_here.
Defined.

(** An empty batch returns 0 and changes nothing. *)
Lemma upsert_messages_count_bounds_witness :
  snd (upsert_messages "t0" [] Database_init) = 0 /\
  fst (upsert_messages "t0" [] Database_init) = Database_init.
Proof.
  split; [reflexivity|].
  exact (proj2 (upsert_messages_count_bounds "t0" [] Database_init) eq_refl).
Defined.

(** Two rows, a lower bound between them and no limit. *)
Lemma get_messages_result_witness :
  let r1 := {| row_id := "a"; sender_name := "Ann";
               sender_email := EmptyString; text := "first";
               created_at := "2024-05-01T10:00:00Z"; fetched_at := "t" |} in
  let r2 := {| row_id := "b"; sender_name := "Bob";
               sender_email := EmptyString; text := "second";
               created_at := "2024-05-01T11:00:00Z"; fetched_at := "t" |} in
  let d := {| messages := [r2; r1]; state := ∅; auth := ∅;
              total_changes := 2 |} in
  (-1 < 0)%Z /\
  r2 ∈ messages d /\
  r2 ∈ get_messages (fun _ _ => true) (Some "2024-05-01T10:30:00Z") (-1)
         None d.
Proof.
  intros r1 r2 d.
  assert (Hin : r2 ∈ messages d) by apply list_elem_of_here.
  split; [reflexivity|]. split; [exact Hin|].
  apply (proj1 (proj2 (proj2 (proj2
           (get_messages_result (fun _ _ => true)
              (Some "2024-05-01T10:30:00Z") (-1) None d)))) eq_refl r2 Hin).
  split.
  - intros s Hs _. injection Hs as <-. reflexivity.
  - intros s Hs. discriminate Hs.
Defined.

(** Two rows and a marker between them: one unread. *)
Lemma unread_with_marker_witness :
  let r1 := {| row_id := "a"; sender_name := "Ann";
               sender_email := EmptyString; text := "first";
               created_at := "2024-05-01T10:00:00Z"; fetched_at := "t" |} in
  let r2 := {| row_id := "b"; sender_name := "Bob";
               sender_email := EmptyString; text := "second";
               created_at := "2024-05-01T11:00:00Z"; fetched_at := "t" |} in
  let d := {| messages := [r1; r2];
              state := {[ "read_marker" := "2024-05-01T10:30:00Z" ]};
              auth := ∅; total_changes := 3 |} in
  get_state "read_marker" d = Some "2024-05-01T10:30:00Z" /\
  truthy "2024-05-01T10:30:00Z" = true /\
  unread_count d = 1 /\
  length (get_unread_messages (fun _ _ => true) d) = 1.
Proof.
  intros r1 r2 d.
  assert (Hm : get_state "read_marker" d = Some "2024-05-01T10:30:00Z")
    by reflexivity.
  destruct (unread_with_marker (fun _ _ => true) d _ Hm eq_refl)
    as [Hcount [Hlen _]].
  split; [exact Hm|]. split; [reflexivity|].
  split; [rewrite Hcount; reflexivity|].
  rewrite Hlen, Hcount. reflexivity.
Defined.

(** Marking as read, without timestamp, a day after the only message. *)
Lemma mark_read_clears_unread_witness :
  let r1 := {| row_id := "a"; sender_name := "Ann";
               sender_email := EmptyString; text := "first";
               created_at := "2024-05-01T10:00:00Z"; fetched_at := "t" |} in
  let d := {| messages := [r1]; state := ∅; auth := ∅;
              total_changes := 1 |} in
  let now := "2024-05-02T10:00:00+00:00" in
  truthy (py_or None now) = true /\
  unread_count d = 1 /\
  unread_count (fst (mark_read None now d)) = 0.
Proof.
  intros r1 d now.
  assert (Hall : forall r, r ∈ messages d ->
                   String.leb (created_at r) (py_or None now) = true).
  { intros r Hr. apply list_elem_of_singleton in Hr. subst r. reflexivity. }
  split; [reflexivity|]. split; [reflexivity|].
  exact (proj1 (mark_read_clears_unread (fun _ _ => true) None now d
                  eq_refl Hall)).
Defined.

(** A new database holds no refresh token. *)
Lemma unauthenticated_raises_witness :
  truthy_opt (get_auth "refresh_token" Database_init) = false /\
  list_messages iso_fromisoformat iso_strftime_utc (google_serving [])
    None 100 Database_init = (inl RuntimeError, Database_init).
Proof.
  split; [reflexivity|].
  exact (proj1 (proj2 (unauthenticated_raises string iso_fromisoformat
                         iso_strftime_utc (google_serving []) None 100%Z
                         (fun _ => inl RuntimeError) EmptyString
                         (inl RuntimeError) Database_init eq_refl))).
Defined.

(** A login without stored access token, refreshed by Google. *)
Lemma token_refresh_persisted_witness :
  let g := {| stale := fun o _ => match o with
                                  | Some _ => false
                                  | None => true
                                  end;
              refresh := inr ("ya29.new", Some "2024-05-01T11:00:00");
              list_pages := fun _ _ => ([], None) |} in
  let d := set_auth "refresh_token" "1//token" Database_init in
  get_auth "refresh_token" d = Some "1//token" /\
  truthy "1//token" = true /\
  stale g (get_auth "access_token" d) None = true /\
  exists d',
    snd (load_credentials iso_fromisoformat g d) = d' /\
    get_auth "access_token" d' = Some "ya29.new" /\
    get_auth "token_expiry" d' = Some "2024-05-01T11:00:00".
Proof.
  intros g d.
  assert (H1 : get_auth "refresh_token" d = Some "1//token") by reflexivity.
  pose proof (token_refresh_persisted string iso_fromisoformat g d
                "1//token" None H1 eq_refl eq_refl eq_refl) as H.
  cbn [refresh g] in H. destruct H as [d' [Hl [Ha [He _]]]].
  split; [exact H1|]. split; [reflexivity|]. split; [reflexivity|].
  exists d'. split; [rewrite Hl; reflexivity|].
  split; [exact Ha | exact He].
Defined.

(** A stored expiry that the parser rejects. *)
Lemma malformed_expiry_raises_witness :
  let d := set_auth "token_expiry" "soon"
             (set_auth "refresh_token" "1//token" Database_init) in
  let reject : string -> option string := fun _ => None in
  get_auth "refresh_token" d = Some "1//token" /\
  get_auth "token_expiry" d = Some "soon" /\
  app_poll_fn reject iso_strftime_utc (google_serving []) "t" d =
    (inl ValueError, d).
Proof.
  intros d reject.
  assert (H1 : get_auth "refresh_token" d = Some "1//token") by reflexivity.
  assert (H2 : get_auth "token_expiry" d = Some "soon") by reflexivity.
  split; [exact H1|]. split; [exact H2|].
  exact (proj2 (proj2 (proj2
           (malformed_expiry_raises string reject iso_strftime_utc
              (google_serving []) None 100%Z (fun _ => inl RuntimeError)
              EmptyString "t" d "1//token" "soon"
              H1 eq_refl H2 eq_refl eq_refl)))).
Defined.

(** A stored creation time that the parser rejects. *)
Lemma unparsable_latest_blocks_polling_witness :
  let d := {| messages := [{| row_id := "a"; sender_name := "Ann";
                              sender_email := EmptyString; text := "hi";
                              created_at := "yesterday";
                              fetched_at := "t" |}];
              state := ∅; auth := ∅; total_changes := 1 |} in
  let reject : string -> option string := fun _ => None in
  let fetch : option string -> Py (list Message) := fun _ => ret [] in
  latest_message_time d = Some "yesterday" /\
  poll_fn reject fetch "t" d = (inl ValueError, d) /\
  get_state "last_poll_at"
    (snd (_loop_poll (poll_fn reject fetch "t") "t1" d)) = None.
Proof.
  intros d reject fetch.
  destruct (unparsable_latest_blocks_polling string reject fetch "t" "t1" d
              "yesterday" eq_refl eq_refl eq_refl) as [H1 H2].
  split; [reflexivity|]. split; [exact H1|].
  rewrite H2. reflexivity.
Defined.


(** An iteration exactly 600 seconds after the touch. *)
Lemma no_decay_within_timeout_witness :
  let a := {| poller := {| _mode := ACTIVE; _last_skill_touch := 1000 |};
              loop := AtTop;
              db := Database_init |} in
  (0 <= POLL_DECAY_TIMEOUT default_config < 2 ^ 53)%Z /\
  (1600 - _last_skill_touch (poller a)
   <= inject_Z (POLL_DECAY_TIMEOUT default_config))%Q /\
  step default_config a (EvLoopDecide 1600) =
    Some {| poller := poller a; loop := AwaitPoll 30; db := db a |}.
Proof.
  intros a.
  assert (HT : (0 <= POLL_DECAY_TIMEOUT default_config < 2 ^ 53)%Z).
  { split; [intros H; discriminate H | reflexivity]. }
  assert (H : (1600 - _last_skill_touch (poller a)
               <= inject_Z (POLL_DECAY_TIMEOUT default_config))%Q).
  { unfold Qle. simpl. lia. }
  split; [exact HT|]. split; [exact H|].
  exact (no_decay_within_timeout default_config a 1600%Q HT
           eq_refl eq_refl H).
Defined.

(** A touch and the start of an iteration on a new application. *)
Lemma interval_always_configured_witness :
  let evs := [EvTouch 1000; EvLoopDecide 1001] in
  interval_configured default_config App_init /\
  exists a,
    run default_config evs App_init = Some a /\
    loop a = AwaitPoll 30 /\
    interval_configured default_config a.
Proof.
  intros evs.
  assert (H0 : interval_configured default_config App_init) by exact I.
  split; [exact H0|].
  eexists. split; [reflexivity|]. split; [reflexivity|].
  exact (interval_always_configured default_config evs App_init _ H0 eq_refl).
Defined.

(** A boost early in an idle sleep of four hours. *)
Lemma touch_during_sleep_witness :
  let a := {| poller := Poller_init;
              loop := AwaitSleep 14400;
              db := Database_init |} in
  loop a = AwaitSleep 14400 /\
  (0 < 2000)%Q /\
  f64_gt_int (b64_sub 15000 2000) (POLL_DECAY_TIMEOUT default_config)
    = true /\
  (inject_Z (POLL_DECAY_TIMEOUT default_config) + 1 <= 15000 - 2000)%Q /\
  run default_config [EvTouch 2000; EvLoopWake; EvLoopDecide 15000] a =
    Some {| poller := {| _mode := IDLE; _last_skill_touch := 2000 |};
            loop := AwaitPoll 14400;
            db := Database_init |}.
Proof.
  intros a.
  assert (H1 : (0 < 2000)%Q) by reflexivity.
  assert (H2 : f64_gt_int (b64_sub 15000 2000)
                 (POLL_DECAY_TIMEOUT default_config) = true)
    by (vm_compute; reflexivity).
  assert (H3 : (inject_Z (POLL_DECAY_TIMEOUT default_config) + 1
                <= 15000 - 2000)%Q).
  { intros H. discriminate H. }
  assert (H4 : (0 <= POLL_DECAY_TIMEOUT default_config)%Z).
  { intros H. discriminate H. }
  assert (H5 : (POLL_DECAY_TIMEOUT default_config + 1 <= 2 ^ 53)%Z).
  { intros H. discriminate H. }
  split; [reflexivity|]. split; [exact H1|]. split; [exact H2|].
  split; [exact H3|].
  pose proof (touch_during_sleep default_config a 14400%Z 2000%Q 15000%Q
                eq_refl H1) as [_ [Ha Hb]].
  pose proof (Hb H4 H5 H3) as Hexact.
  exact (Ha H2).
Defined.

(** A cancelled loop, then a touch and a mark-read. *)
Lemma finished_loop_stays_finished_witness :
  let a := {| poller := Poller_init;
              loop := Finished CancelledError;
              db := Database_init |} in
  let evs := [EvTouch 1000; EvMarkRead None "2024-05-01T10:00:00+00:00"] in
  loop a = Finished CancelledError /\
  exists a',
    run default_config evs a = Some a' /\
    loop a' = Finished CancelledError /\
    get_state "last_poll_at" (db a') = None.
Proof.
  intros a evs. split; [reflexivity|].
  eexists. split; [reflexivity|].
  destruct (finished_loop_stays_finished default_config evs a _
              CancelledError eq_refl eq_refl) as [_ [H1 [H2 _]]].
  split; [exact H1 | exact H2].
Defined.

(** A handler stores a message, then an iteration of the loop fetches
    it again. *)
Lemma store_only_grows_witness :
  let raw := {| raw_name := Some "spaces/S/messages/a";
                raw_sender := None;
                raw_text := Some "hello";
                raw_createTime := Some "2024-05-01T10:00:00.000000Z" |} in
  let poll := app_poll_fn iso_fromisoformat iso_strftime_utc
                (google_serving [[raw]]) "2024-05-01T10:02:00+00:00" in
  let evs := [EvSetAuth "refresh_token" "1//token";
              EvUpsert "2024-05-01T10:00:30+00:00" [_normalize raw];
              EvLoopDecide 1000;
              EvLoopPoll poll "2024-05-01T10:02:01+00:00"] in
  Forall (app_event iso_fromisoformat iso_strftime_utc) evs /\
  exists a,
    run default_config evs App_init = Some a /\
    NoDup (map row_id (messages (db a))) /\
    length (messages (db a)) = 1.
Proof.
  intros raw poll evs.
  assert (H : Forall (app_event iso_fromisoformat iso_strftime_utc) evs).
  { repeat constructor. eexists. eexists. reflexivity. }
  split; [exact H|].
  eexists. split; [reflexivity|].
  split; [|reflexivity].
  exact (proj2 (store_only_grows string iso_fromisoformat iso_strftime_utc
                  default_config evs App_init _ H eq_refl) eq_refl).
Defined.

(** A send on a new, unauthenticated application. *)
Lemma send_stores_message_witness :
  let created : string -> exn + RawMessage :=
    fun _ => inl (OtherException "HttpError") in
  truthy_opt (get_auth "refresh_token" (db App_init)) = false /\
  routes.send_chat_message iso_fromisoformat 1000 (google_serving [])
    created "hello" "2024-05-01T10:00:00+00:00" App_init =
  (inl (routes.HTTPException 503), routes._touch_skill 1000 App_init).
Proof.
  intros created. split; [reflexivity|].
  exact (proj2 (send_stores_message string iso_fromisoformat 1000%Q
                  (google_serving []) created "hello"
                  "2024-05-01T10:00:00+00:00" App_init) eq_refl).
Defined.

(** A limit of 0 is rejected; no limit means 100. *)
Lemma get_messages_route_limit_witness :
  routes.get_messages (fun _ _ => true) 1000 None (Some 0%Z) None App_init =
    (inl (routes.HTTPException 422), App_init) /\
  fst (routes.get_messages (fun _ _ => true) 1000 None None None App_init) =
    inr [].
Proof.
  assert (Hbad : (default 100 (Some 0) < 1 \/ 1000 < default 100 (Some 0))%Z)
    by (left; reflexivity).
  assert (Hok : (1 <= default 100 None <= 1000)%Z) by (simpl; lia).
  split.
  - exact (proj1 (get_messages_route_limit (fun _ _ => true) 1000%Q None
                    (Some 0%Z) None App_init) Hbad).
  - rewrite (proj1 (proj2 (get_messages_route_limit (fun _ _ => true) 1000%Q
                             None None None App_init) Hok)).
    reflexivity.
Defined.

(** On a new application the status says not authenticated and a send
    answers 503. *)
Lemma status_authenticated_witness :
  let created : string -> exn + RawMessage :=
    fun _ => inl (OtherException "HttpError") in
  routes.authenticated (routes.status "spaces/S" App_init) = false /\
  fst (routes.send_chat_message iso_fromisoformat 1000 (google_serving [])
         created "hello" "2024-05-01T10:00:00+00:00" App_init) =
    inl (routes.HTTPException 503).
Proof.
  intros created. split; [reflexivity|].
  exact (proj1 (status_authenticated string iso_fromisoformat "spaces/S"
                  1000%Q (google_serving []) created "hello"
                  "2024-05-01T10:00:00+00:00" App_init) eq_refl).
Defined.
